(** * Scaled dot-product attention and multi-head attention

    A shallow embedding of the three notebooks of the repository
    ([SelfAttention], [MaskedSelfAttention], [Attention] and
    [MultiHeadAttention]) and the properties of their forward pass.

    Arrays are two-dimensional: a declared shape and the rows as nested
    lists.  The array primitives the notebooks call ([@], [swapaxes],
    [jnp.where], [jax.nn.softmax], [jnp.concatenate]) are modelled with
    the shape checks they perform, so a call either returns an array or
    an error.  The element type is a parameter (class [Scalar]).
    Properties of the values of the weights are proved from laws of
    floating-point arithmetic (class [FloatLaws]); the real numbers are
    used only where rounding, overflow and underflow play no part. *)

From Stdlib Require Import List Bool Arith ZArith Lia Reals Lra.
Import ListNotations.

Set Implicit Arguments.

(** ** Errors and the result monad *)

Inductive error : Type :=
| DotShapeError      (* [@]: the contracting dimensions differ *)
| BroadcastError     (* [jnp.where]: shapes cannot be broadcast together *)
| AxisError          (* an axis outside [-2, 1] on a 2-D array *)
| ConcatEmptyError   (* [jnp.concatenate]: need at least one array *)
| ConcatShapeError   (* [jnp.concatenate]: off-axis dimensions differ *)
| NegativeDimError.  (* [jax.random.uniform]: negative dimension *)

Inductive result (A : Type) : Type :=
| Ok (a : A)
| Err (e : error).

Arguments Ok {A} a.
Arguments Err {A} e.

Definition bind {A B : Type} (r : result A) (k : A -> result B) : result B :=
  match r with
  | Ok a => k a
  | Err e => Err e
  end.

Notation "x <- e1 ;; e2" := (bind e1 (fun x => e2))
  (at level 61, e1 at next level, right associativity).

Fixpoint mapM {A B : Type} (f : A -> result B) (l : list A) : result (list B) :=
  match l with
  | [] => Ok []
  | a :: l' => b <- f a ;; bs <- mapM f l' ;; Ok (b :: bs)
  end.

(** ** Two-dimensional arrays *)

Record Array (A : Type) : Type := mkArray {
  nrows : nat;
  ncols : nat;
  rows : list (list A)
}.

Section ArrayOps.
Variable A : Type.
Variable dflt : A.

Definition shape (a : Array A) : nat * nat := (nrows a, ncols a).

(** Well-formed: the data agrees with the declared shape. *)
Definition wf (a : Array A) : Prop :=
  length (rows a) = nrows a /\
  Forall (fun r => length r = ncols a) (rows a).

Definition get (a : Array A) (i j : nat) : A :=
  nth j (nth i (rows a) []) dflt.

Definition tabulate (r c : nat) (f : nat -> nat -> A) : Array A :=
  mkArray r c (map (fun i => map (f i) (seq 0 c)) (seq 0 r)).

Definition map_rows (f : list A -> list A) (a : Array A) : Array A :=
  mkArray (nrows a) (ncols a) (map f (rows a)).

Definition map_array (f : A -> A) (a : Array A) : Array A :=
  map_rows (map f) a.

Definition transpose (a : Array A) : Array A :=
  tabulate (ncols a) (nrows a) (fun i j => get a j i).
End ArrayOps.

(** ** Axes

    Axes are Python integers; on a 2-D array [-2] and [-1] mean [0] and
    [1], anything outside [-2, 1] is an error. *)

Definition normalize_axis (axis : Z) : result nat :=
  if ((0 <=? axis) && (axis <? 2))%Z then Ok (Z.to_nat axis)
  else if ((-2 <=? axis) && (axis <? 0))%Z then Ok (Z.to_nat (axis + 2))
  else Err AxisError.

(** Broadcasting of one dimension: equal, or one of the two is 1. *)
Definition broadcast_dim (a b : nat) : result nat :=
  if a =? b then Ok a
  else if a =? 1 then Ok b
  else if b =? 1 then Ok a
  else Err BroadcastError.

(** Index into a dimension of extent [n] that was broadcast. *)
Definition bidx (n i : nat) : nat := if n =? 1 then 0 else i.

(** ** The element type *)

Class Scalar (F : Type) : Type := {
  f0 : F;
  fadd : F -> F -> F;
  fsub : F -> F -> F;
  fmul : F -> F -> F;
  fdiv : F -> F -> F;
  fmax : F -> F -> F;
  fexp : F -> F;
  fsqrt : F -> F;
  of_int : Z -> F;
  (* the literal [-1e9] *)
  neg_1e9 : F
}.

Section Numeric.
Context {F : Type} {SF : Scalar F}.

Definition fsum (l : list F) : F := fold_left fadd l f0.

(** Sum of [f 0 .. f (n-1)], in index order. *)
Definition big_sum (n : nat) (f : nat -> F) : F := fsum (map f (seq 0 n)).

(** [a @ b] on 2-D arrays. *)
Definition matmul (a b : Array F) : result (Array F) :=
  if ncols a =? nrows b then
    Ok (tabulate (nrows a) (ncols b)
          (fun i j => big_sum (ncols a)
                        (fun k => fmul (get f0 a i k) (get f0 b k j))))
  else Err DotShapeError.

(** [a.swapaxes(axis1, axis2)]. *)
Definition swapaxes (a : Array F) (axis1 axis2 : Z) : result (Array F) :=
  ax1 <- normalize_axis axis1 ;;
  ax2 <- normalize_axis axis2 ;;
  Ok (if ax1 =? ax2 then a else transpose f0 a).

(** [a / s] for a scalar [s]. *)
Definition div_scalar (a : Array F) (s : F) : Array F :=
  map_array (fun x => fdiv x s) a.

(** [jnp.where(cond, x, y)] for a 2-D boolean [cond], a scalar [x] and a
    2-D [y]; [cond] and [y] are broadcast against each other. *)
Definition where_ (cond : Array bool) (x : F) (y : Array F)
  : result (Array F) :=
  r <- broadcast_dim (nrows cond) (nrows y) ;;
  c <- broadcast_dim (ncols cond) (ncols y) ;;
  Ok (tabulate r c
        (fun i j =>
           if get false cond (bidx (nrows cond) i) (bidx (ncols cond) j)
           then x
           else get f0 y (bidx (nrows y) i) (bidx (ncols y) j))).

(** Modelled from the spec: the body of [jax.nn.softmax] is library code
    that is not part of the repository.  Along the normalised axis every
    lane [x] becomes [exp (x - max x) / sum (exp (x - max x))]; this is
    the max-subtracted form the specification prescribes. *)
Definition softmax_lane (lane : list F) : list F :=
  match lane with
  | [] => []
  | x :: xs =>
      let x_max := fold_left fmax xs x in
      let unnormalized := map (fun y => fexp (fsub y x_max)) lane in
      let total := fsum unnormalized in
      map (fun u => fdiv u total) unnormalized
  end.

Definition softmax (a : Array F) (axis : Z) : result (Array F) :=
  ax <- normalize_axis axis ;;
  Ok (match ax with
      | 0 => transpose f0 (map_rows softmax_lane (transpose f0 a))
      | _ => map_rows softmax_lane a
      end).

(** [jnp.concatenate(arrays, axis)]. *)
Definition concatenate (arrays : list (Array F)) (axis : Z)
  : result (Array F) :=
  match arrays with
  | [] => Err ConcatEmptyError
  | a :: rest =>
      ax <- normalize_axis axis ;;
      match ax with
      | 0 =>
          if forallb (fun b => ncols b =? ncols a) rest then
            Ok (mkArray (list_sum (map (@nrows F) arrays)) (ncols a)
                  (concat (map (@rows F) arrays)))
          else Err ConcatShapeError
      | _ =>
          if forallb (fun b => nrows b =? nrows a) rest then
            Ok (mkArray (nrows a) (list_sum (map (@ncols F) arrays))
                  (map (fun i => concat (map (fun b => nth i (rows b) [])
                                             arrays))
                       (seq 0 (nrows a))))
          else Err ConcatShapeError
      end
  end.

(** ** Random number streams

    [nnx.Rngs(params=key)] is a counter over a base key: every call of
    [rngs.params()] folds the counter into the key and increments it.
    [jax.random.uniform] is a function of the key and the shape. *)
Section Modules.
Variable key : Type.
Variable fold_in : key -> nat -> key.
(** [sample k r c i j]: entry [(i, j)] of the [(r, c)] array drawn
    from key [k]. *)
Variable sample : key -> nat -> nat -> nat -> nat -> F.

Record Rngs : Type := mkRngs {
  base_key : key;
  count : nat
}.

Definition Rngs_params (rngs : Rngs) : key * Rngs :=
  (fold_in (base_key rngs) (count rngs),
   mkRngs (base_key rngs) (S (count rngs))).

Definition random_uniform (k : key) (r c : Z) : result (Array F) :=
  if ((r <? 0) || (c <? 0))%Z then Err NegativeDimError
  else Ok (tabulate (Z.to_nat r) (Z.to_nat c)
             (sample k (Z.to_nat r) (Z.to_nat c))).

(** The array drawn from the key the stream hands out next, and the
    stream after that draw. *)
Definition drawn_weights (d_model : Z) (rngs : Rngs) : Array F :=
  tabulate (Z.to_nat d_model) (Z.to_nat d_model)
    (sample (fold_in (base_key rngs) (count rngs))
       (Z.to_nat d_model) (Z.to_nat d_model)).

Definition advance (rngs : Rngs) : Rngs :=
  mkRngs (base_key rngs) (S (count rngs)).

(** ** [class Attention] (multiheadattention notebook) *)
Record Attention : Type := mkAttention {
  W_q : Array F;
  W_k : Array F;
  W_v : Array F;
  row_dim : Z;
  col_dim : Z;
  d_model : Z
}.

Definition Attention_init (d_model row_dim col_dim : Z) (rngs : Rngs)
  : result (Attention * Rngs) :=
  let (k, rngs') := Rngs_params rngs in
  wq <- random_uniform k d_model d_model ;;
  wk <- random_uniform k d_model d_model ;;
  wv <- random_uniform k d_model d_model ;;
  Ok (mkAttention wq wk wv row_dim col_dim d_model, rngs').

(** The local variables of a forward pass, in the order they are
    assigned. *)
Record Forward : Type := mkForward {
  q_proj : Array F;
  k_proj : Array F;
  v_proj : Array F;
  sims : Array F;
  scaled_sims : Array F;       (* after the optional masking *)
  attention_percents : Array F;
  attention_scores : Array F
}.

Definition Attention_forward (self : Attention)
    (encodings_for_q encodings_for_k encodings_for_v : Array F)
    (mask : option (Array bool)) : result Forward :=
  q <- matmul encodings_for_q (W_q self) ;;
  k <- matmul encodings_for_k (W_k self) ;;
  v <- matmul encodings_for_v (W_v self) ;;
  k_t <- swapaxes k (row_dim self) (col_dim self) ;;
  sims <- matmul q k_t ;;
  let scaled_sims := div_scalar sims (fsqrt (of_int (d_model self))) in
  scaled_sims <- match mask with
                 | Some m => where_ m neg_1e9 scaled_sims
                 | None => Ok scaled_sims
                 end ;;
  attention_percents <- softmax scaled_sims (col_dim self) ;;
  attention_scores <- matmul attention_percents v ;;
  Ok (mkForward q k v sims scaled_sims attention_percents
        attention_scores).

Definition Attention_call (self : Attention)
    (encodings_for_q encodings_for_k encodings_for_v : Array F)
    (mask : option (Array bool)) : result (Array F) :=
  fw <- Attention_forward self encodings_for_q encodings_for_k
          encodings_for_v mask ;;
  Ok (attention_scores fw).

(** ** [class MaskedSelfAttention] *)
Record MaskedSelfAttention : Type := mkMaskedSelfAttention {
  msa_W_q : Array F;
  msa_W_k : Array F;
  msa_W_v : Array F;
  msa_row_dim : Z;
  msa_col_dim : Z;
  msa_d_model : Z
}.

Definition MaskedSelfAttention_init (d_model row_dim col_dim : Z)
    (rngs : Rngs) : result (MaskedSelfAttention * Rngs) :=
  let (k, rngs') := Rngs_params rngs in
  wq <- random_uniform k d_model d_model ;;
  wk <- random_uniform k d_model d_model ;;
  wv <- random_uniform k d_model d_model ;;
  Ok (mkMaskedSelfAttention wq wk wv row_dim col_dim d_model, rngs').

Definition MaskedSelfAttention_forward (self : MaskedSelfAttention)
    (token_encodings : Array F) (mask : option (Array bool))
  : result Forward :=
  q <- matmul token_encodings (msa_W_q self) ;;
  k <- matmul token_encodings (msa_W_k self) ;;
  v <- matmul token_encodings (msa_W_v self) ;;
  k_t <- swapaxes k (msa_row_dim self) (msa_col_dim self) ;;
  sims <- matmul q k_t ;;
  let scaled_sims :=
    div_scalar sims (fsqrt (of_int (msa_d_model self))) in
  scaled_sims <- match mask with
                 | Some m => where_ m neg_1e9 scaled_sims
                 | None => Ok scaled_sims
                 end ;;
  attention_percents <- softmax scaled_sims (msa_col_dim self) ;;
  attention_scores <- matmul attention_percents v ;;
  Ok (mkForward q k v sims scaled_sims attention_percents
        attention_scores).

Definition MaskedSelfAttention_call (self : MaskedSelfAttention)
    (token_encodings : Array F) (mask : option (Array bool))
  : result (Array F) :=
  fw <- MaskedSelfAttention_forward self token_encodings mask ;;
  Ok (attention_scores fw).

(** ** [class SelfAttention] *)
Record SelfAttention : Type := mkSelfAttention {
  sa_W_q : Array F;
  sa_W_k : Array F;
  sa_W_v : Array F;
  sa_row_dim : Z;
  sa_col_dim : Z;
  sa_d_model : Z
}.

Definition SelfAttention_init (d_model row_dim col_dim : Z)
    (rngs : Rngs) : result (SelfAttention * Rngs) :=
  let (k, rngs') := Rngs_params rngs in
  wq <- random_uniform k d_model d_model ;;
  wk <- random_uniform k d_model d_model ;;
  wv <- random_uniform k d_model d_model ;;
  Ok (mkSelfAttention wq wk wv row_dim col_dim d_model, rngs').

Definition SelfAttention_forward (self : SelfAttention)
    (token_encodings : Array F) : result Forward :=
  q <- matmul token_encodings (sa_W_q self) ;;
  k <- matmul token_encodings (sa_W_k self) ;;
  v <- matmul token_encodings (sa_W_v self) ;;
  k_t <- swapaxes k (sa_row_dim self) (sa_col_dim self) ;;
  sims <- matmul q k_t ;;
  let scaled_sims :=
    div_scalar sims (fsqrt (of_int (sa_d_model self))) in
  attention_percents <- softmax scaled_sims (sa_col_dim self) ;;
  attention_scores <- matmul attention_percents v ;;
  Ok (mkForward q k v sims scaled_sims attention_percents
        attention_scores).

Definition SelfAttention_call (self : SelfAttention)
    (token_encodings : Array F) : result (Array F) :=
  fw <- SelfAttention_forward self token_encodings ;;
  Ok (attention_scores fw).

(** ** [class MultiHeadAttention] *)
Record MultiHeadAttention : Type := mkMultiHeadAttention {
  heads : list Attention;
  mha_col_dim : Z
}.

(** [[Attention(d_model, row_dim, col_dim, rngs=rngs) for _ in range(n)]]:
    the heads are built one after the other on the same stream. *)
Fixpoint make_heads (n : nat) (d_model row_dim col_dim : Z) (rngs : Rngs)
  : result (list Attention * Rngs) :=
  match n with
  | O => Ok ([], rngs)
  | S n' =>
      hr <- Attention_init d_model row_dim col_dim rngs ;;
      tr <- make_heads n' d_model row_dim col_dim (snd hr) ;;
      Ok (fst hr :: fst tr, snd tr)
  end.

Definition MultiHeadAttention_init (d_model row_dim col_dim num_heads : Z)
    (rngs : Rngs) : result (MultiHeadAttention * Rngs) :=
  hr <- make_heads (Z.to_nat num_heads) d_model row_dim col_dim rngs ;;
  Ok (mkMultiHeadAttention (fst hr) col_dim, snd hr).

Definition MultiHeadAttention_call (self : MultiHeadAttention)
    (encodings_for_q encodings_for_k encodings_for_v : Array F)
  : result (Array F) :=
  outputs <- mapM (fun head => Attention_call head encodings_for_q
                                 encodings_for_k encodings_for_v None)
                  (heads self) ;;
  concatenate outputs (mha_col_dim self).
End Modules.
End Numeric.

Arguments Attention F : clear implicits.
Arguments MaskedSelfAttention F : clear implicits.
Arguments SelfAttention F : clear implicits.
Arguments MultiHeadAttention F : clear implicits.
Arguments Forward F : clear implicits.

(** ** Views between the three attention classes

    [MaskedSelfAttention] and [SelfAttention] carry the same fields as
    [Attention]; their forward passes are the one of [Attention] with the
    same encodings in the three places. *)

Definition as_Attention {F : Type} (m : MaskedSelfAttention F) : Attention F :=
  mkAttention (msa_W_q m) (msa_W_k m) (msa_W_v m)
    (msa_row_dim m) (msa_col_dim m) (msa_d_model m).

Definition sa_as_Attention {F : Type} (s : SelfAttention F) : Attention F :=
  mkAttention (sa_W_q s) (sa_W_k s) (sa_W_v s)
    (sa_row_dim s) (sa_col_dim s) (sa_d_model s).

(** Row [i] of an array. *)
Definition row {A : Type} (a : Array A) (i : nat) : list A :=
  nth i (rows a) [].

(** [jnp.tril(jnp.ones((n, n))) == 0]: true strictly above the diagonal. *)
Definition causal_mask (n : nat) : Array bool :=
  tabulate n n (fun i j => i <? j).

(** ** Valid configurations

    The data model fixes the axis roles: arrays are (sequence, feature),
    so the row axis is 0 and the column axis is 1, and the three weight
    matrices are [(d, d)]. *)

Definition valid_head {F : Type} (h : Attention F) (d : nat) : Prop :=
  row_dim h = 0%Z /\ col_dim h = 1%Z /\ d_model h = Z.of_nat d /\
  shape (W_q h) = (d, d) /\ shape (W_k h) = (d, d) /\ shape (W_v h) = (d, d).

Definition valid_mask (mask : option (Array bool)) (n_q n_k : nat) : Prop :=
  match mask with
  | Some m => shape m = (n_q, n_k)
  | None => True
  end.

(** ** The computation as the specification words it

    Entry by entry: project, similarity, scale, mask, normalise,
    aggregate. *)

Section Reference.
Context {F : Type} {SF : Scalar F}.
Variables Wq Wk Wv : Array F.
Variable d : nat.
Variables query_source key_source value_source : Array F.
Variable mask : option (Array bool).
Variable n_k : nat.

Definition ref_Q (i c : nat) : F :=
  big_sum d (fun t => fmul (get f0 query_source i t) (get f0 Wq t c)).

Definition ref_K (j c : nat) : F :=
  big_sum d (fun t => fmul (get f0 key_source j t) (get f0 Wk t c)).

Definition ref_V (j c : nat) : F :=
  big_sum d (fun t => fmul (get f0 value_source j t) (get f0 Wv t c)).

Definition ref_S (i j : nat) : F :=
  big_sum d (fun c => fmul (ref_Q i c) (ref_K j c)).

Definition ref_scaled (i j : nat) : F :=
  fdiv (ref_S i j) (fsqrt (of_int (Z.of_nat d))).

Definition ref_masked (i j : nat) : F :=
  match mask with
  | Some m => if get false m i j then neg_1e9 else ref_scaled i j
  | None => ref_scaled i j
  end.

Definition ref_weights (i j : nat) : F :=
  nth j (softmax_lane (map (ref_masked i) (seq 0 n_k))) f0.

Definition ref_output (i c : nat) : F :=
  big_sum n_k (fun j => fmul (ref_weights i j) (ref_V j c)).
End Reference.

Definition attention_reference {F : Type} {SF : Scalar F}
    (Wq Wk Wv : Array F) (d : nat)
    (query_source key_source value_source : Array F)
    (mask : option (Array bool)) (n_q n_k : nat) : Array F :=
  tabulate n_q d
    (ref_output Wq Wk Wv d query_source key_source value_source mask n_k).

(** [[O_1 | O_2]]: two arrays side by side. *)
Definition hjoin {A : Type} (a b : Array A) : Array A :=
  mkArray (nrows a) (ncols a + ncols b)
    (map (fun i => row a i ++ row b i) (seq 0 (nrows a))).

(** [[O_1 | O_2 | ... | O_k]], joined left to right. *)
Definition hstack {A : Type} (o : Array A) (os : list (Array A)) : Array A :=
  fold_left hjoin os o.

(** ** Real numbers as the element type

    The exact reals: no rounding, no overflow, no NaN.  They carry the
    concrete inputs on which the definitions are run and the properties
    in which rounding plays no part (a fully masked row is uniform, tied
    weights give symmetric similarities).  What depends on rounding and
    on the underflow of [exp] is proved from [FloatLaws] instead. *)

#[export] Instance R_Scalar : Scalar R := {|
  f0 := 0%R;
  fadd := Rplus;
  fsub := Rminus;
  fmul := Rmult;
  fdiv := Rdiv;
  fmax := Rmax;
  fexp := exp;
  fsqrt := sqrt;
  of_int := IZR;
  neg_1e9 := (-1000000000)%R
|}.

(** Unfold the scalar operations at the reals. *)
Ltac real_ops :=
  cbn [f0 fadd fsub fmul fdiv fmax fexp fsqrt of_int neg_1e9 R_Scalar] in *.

(** Two successful evaluations of the same forward pass are equal. *)
Ltac same_forward H1 H2 :=
  rewrite H1 in H2; injection H2 as H2; subst.

(** [M] is the maximum of the list [l]. *)
Definition is_max (M : R) (l : list R) : Prop :=
  In M l /\ forall x, In x l -> (x <= M)%R.

(** ** Concrete inputs

    A deterministic stand-in for the random source (keys are numbers,
    folding adds the counter, the draw is a function of key, shape and
    index) and a few small arrays, on which the definitions are run. *)

Definition demo_fold_in (k n : nat) : nat := k + n.

Definition demo_sample (k r c i j : nat) : R :=
  (INR (k + i * c + j) / INR (k + r * c + 1))%R.

Definition demo_rngs : Rngs nat := mkRngs 42 0.

Definition arr (n m : nat) (l : list (list R)) : Array R := mkArray n m l.

(** One head with [d_model = 1] and unit weights. *)
Definition unit_head : Attention R :=
  mkAttention (arr 1 1 [[1%R]]) (arr 1 1 [[1%R]]) (arr 1 1 [[1%R]]) 0 1 1.

(** A head with [d_model = 1] whose query and key weights have opposite
    signs. *)
Definition skew_head : MaskedSelfAttention R :=
  mkMaskedSelfAttention (arr 1 1 [[(-1)%R]]) (arr 1 1 [[1%R]])
    (arr 1 1 [[1%R]]) 0 1 1.

Definition two_tokens : Array R := arr 2 1 [[1%R]; [2%R]].

Definition big_tokens : Array R := arr 2 1 [[40000%R]; [40000%R]].

(** [two_tokens] with another second token. *)
Definition two_tokens_alt : Array R := arr 2 1 [[1%R]; [5%R]].

Definition one_token : Array R := arr 1 1 [[1%R]].

Definition no_tokens : Array R := arr 0 1 [].

Definition mask_all_true_1x1 : Array bool := mkArray 1 1 [[true]].

Definition mask_row_1x2 : Array bool := mkArray 1 2 [[false; true]].

Definition mask_2x2_first_row : Array bool :=
  mkArray 2 2 [[true; true]; [false; false]].

Definition mask_row_2x2 : Array bool :=
  mkArray 2 2 [[false; true]; [false; false]].

Definition mask_none_2x2 : Array bool :=
  mkArray 2 2 [[false; false]; [false; false]].

Definition wide_tokens : Array R := arr 2 2 [[1%R; 2%R]; [3%R; 4%R]].

Definition two_heads : MultiHeadAttention R :=
  mkMultiHeadAttention [unit_head; as_Attention skew_head] 1.

(** A head with [d_model = 2], and a module whose two heads differ in
    width. *)
Definition wide_head : Attention R :=
  mkAttention wide_tokens wide_tokens wide_tokens 0 1 2.

Definition mixed_heads : MultiHeadAttention R :=
  mkMultiHeadAttention [unit_head; wide_head] 1.

(** Evaluate a scaled similarity of the reference on the inputs above. *)
Ltac eval_score :=
  unfold ref_masked, ref_scaled, ref_S, ref_Q, ref_K, big_sum, fsum;
  cbn [causal_mask mask_row_2x2 unit_head skew_head two_tokens big_tokens
       as_Attention arr get tabulate rows nth map seq fold_left W_q W_k
       msa_W_q msa_W_k Nat.ltb Nat.leb Z.of_nat Pos.of_succ_nat];
  real_ops; rewrite ?sqrt_1.

(** ** Further operations of the notebooks *)

(** The array a broadcast operand stands for: [m] stretched to [(r, c)]
    along its dimensions of extent 1. *)
Definition broadcast_to {A : Type} (dflt : A) (m : Array A) (r c : nat)
  : Array A :=
  tabulate r c (fun i j => get dflt m (bidx (nrows m) i) (bidx (ncols m) j)).

(** A head with its two axis attributes replaced. *)
Definition with_axes {F : Type} (h : Attention F) (r c : Z) : Attention F :=
  mkAttention (W_q h) (W_k h) (W_v h) r c (d_model h).

(** Column [j] of an array. *)
Definition column {A : Type} (dflt : A) (a : Array A) (j : nat) : list A :=
  map (fun i => get dflt a i j) (seq 0 (nrows a)).

(** The mask cell of the masked notebook:
    [mask = jnp.tril(jnp.ones((n, n))) == 0]. *)
Section MaskCell.
Context {F : Type} {SF : Scalar F}.
(** The value [1.0] and the element-wise [==]. *)
Variable one : F.
Variable feqb : F -> F -> bool.

Definition ones (r c : nat) : Array F := tabulate r c (fun _ _ => one).

(** [jnp.tril]: the entries on and below the diagonal, zero above. *)
Definition tril (a : Array F) : Array F :=
  tabulate (nrows a) (ncols a)
    (fun i j => if j <=? i then get f0 a i j else f0).

Definition eq_scalar (a : Array F) (x : F) : Array bool :=
  tabulate (nrows a) (ncols a) (fun i j => feqb (get f0 a i j) x).

Definition notebook_mask (n : nat) : Array bool :=
  eq_scalar (tril (ones n n)) (of_int 0).
End MaskCell.

Definition Reqb (x y : R) : bool :=
  if Req_dec_T x y then true else false.

(** ** Floating-point arithmetic, by its laws

    The arrays of the notebooks hold IEEE single-precision numbers.  What
    the properties of the attention weights need of them is collected
    here: which values are finite (neither NaN nor infinite), the
    comparison [<=] (false as soon as an operand is NaN), the real number
    a finite value stands for, the unit roundoff [eps], the largest
    absolute error [eta] of a quotient that underflows, a magnitude [huge]
    below which sums stay finite, a bound [underflow_bound] at or below
    which [exp] returns zero (about [-104] in single precision) and a
    bound [small_bound] at or below which [exp] is under [1e-6] (about
    [-14]). *)

Class FloatFormat (F : Type) : Type := {
  fin : F -> Prop;
  fle : F -> F -> Prop;
  toR : F -> R;
  eps : R;
  eta : R;
  huge : R;
  underflow_bound : F;
  small_bound : F
}.

(** The laws.  Each holds of IEEE arithmetic with rounding to nearest:
    rounding is monotone, so [-] is monotone in its first operand and
    antitone in its second, a sum of non-negative numbers is at least
    each of them and a non-negative number divided by one that is at
    least 1 does not grow; [x - x] is [+0] for finite [x]; a sum or a
    quotient is the rounded exact result, within the relative error [eps]
    (and, for a quotient that underflows, the absolute error [eta]); the
    maximum of two numbers is one of them; and [exp] is 1 at 0, within
    [[0, 1]] on arguments [<= 0], 0 at and below the underflow bound and
    under [1e-6] at and below [small_bound]. *)
Class FloatLaws (F : Type) {SF : Scalar F} {FF : FloatFormat F} : Prop := {
  fin_zero : fin f0;
  fin_one : fin (of_int 1);
  toR_zero : toR f0 = 0%R;
  toR_one : toR (of_int 1) = 1%R;
  eps_range : (0 <= eps < 1)%R;
  eta_nonneg : (0 <= eta)%R;
  fle_refl : forall x, fin x -> fle x x;
  fle_trans : forall x y z, fle x y -> fle y z -> fle x z;
  fin_between : forall a b c, fin a -> fin c -> fle a b -> fle b c -> fin b;
  fle_toR : forall a b, fin a -> fin b -> fle a b -> (toR a <= toR b)%R;
  fmax_choice : forall a b, fin a -> fin b -> fmax a b = a \/ fmax a b = b;
  fmax_upper : forall a b, fin a -> fin b ->
                 fle a (fmax a b) /\ fle b (fmax a b);
  fsub_self : forall x, fin x -> fsub x x = f0;
  fsub_mono : forall a b c, fin a -> fin b -> fin c ->
                fle a b -> fle (fsub a c) (fsub b c);
  fsub_antitone : forall c a b, fin c -> fin a -> fin b ->
                    fle a b -> fle (fsub c b) (fsub c a);
  fexp_zero : fexp f0 = of_int 1;
  fexp_unit : forall y, fle y f0 ->
                fle f0 (fexp y) /\ fle (fexp y) (of_int 1);
  fexp_underflow : forall y, fle y underflow_bound -> fexp y = f0;
  fexp_small : forall y, fle y small_bound ->
                 (toR (fexp y) < 1 / 1000000)%R;
  fadd_upper : forall a b, fle f0 a -> fle f0 b ->
                 fle a (fadd a b) /\ fle b (fadd a b);
  fadd_zero_one : fadd f0 (of_int 1) = of_int 1;
  fadd_round : forall a b, fin a -> fin b -> fle f0 a -> fle f0 b ->
                 (toR a + toR b <= huge)%R ->
                 fin (fadd a b) /\
                 (Rabs (toR (fadd a b) - (toR a + toR b)) <=
                  eps * (toR a + toR b))%R;
  fdiv_zero : forall t, fle (of_int 1) t -> fdiv f0 t = f0;
  fdiv_one_one : fdiv (of_int 1) (of_int 1) = of_int 1;
  fdiv_le_num : forall a t, fin a -> fle f0 a -> fle (of_int 1) t ->
                  fle f0 (fdiv a t) /\ fle (fdiv a t) a;
  fdiv_round : forall a t, fin a -> fin t -> fle f0 a -> fle (of_int 1) t ->
                 (Rabs (toR (fdiv a t) - toR a / toR t) <=
                  eps * (toR a / toR t) + eta)%R
}.

Arguments FloatLaws F {SF FF}.

(** Laws of products and of NaN, for the similarities of a head whose
    query and key weights coincide: a square that is a number is not
    negative, a sum or a quotient that is a number has operands that are
    numbers, a non-negative numerator over [sqrt d], [d >= 1], gives no
    negative number, and the sentinel lies below the underflow bound.
    [fle x x] says that [x] is not NaN. *)
Class ProductLaws (F : Type) {SF : Scalar F} {FF : FloatFormat F} : Prop := {
  fmul_self_nonneg : forall x, fle (fmul x x) (fmul x x) ->
                       fle f0 (fmul x x);
  fadd_num : forall a b, fle (fadd a b) (fadd a b) -> fle a a /\ fle b b;
  fdiv_num : forall a t, fle (fdiv a t) (fdiv a t) -> fle a a;
  fdiv_sqrt_nonneg : forall a (d : Z), (1 <= d)%Z -> fle f0 a ->
                       fle (fdiv a (fsqrt (of_int d)))
                           (fdiv a (fsqrt (of_int d))) ->
                       fle f0 (fdiv a (fsqrt (of_int d)));
  sentinel_underflows : fle (fsub neg_1e9 f0) underflow_bound
}.

Arguments ProductLaws F {SF FF}.

(** The exact sum of the numbers of a list. *)
Definition real_sum (l : list R) : R := fold_right Rplus 0%R l.

(** ** An arithmetic with NaN, infinities, overflow and underflow

    The reals within [[-big, big]], with the two infinities and NaN and
    the rules of IEEE arithmetic for them: a result beyond [big]
    overflows to an infinity, [0 / 0], [inf - inf], [inf / inf] and
    [0 * inf] are NaN, NaN propagates, every comparison with NaN is
    false, and [exp] returns 0 at and below [-150].  Within the range the
    operations are exact.  The laws above are run on it. *)

Inductive xreal : Type :=
| NaN : xreal
| NegInf : xreal
| PosInf : xreal
| Num : R -> xreal.

Definition big : R := 1000000000000000000000000000000%R.

(** A real result, overflowing to an infinity beyond [big]. *)
Definition clamp (r : R) : xreal :=
  if Rlt_dec big r then PosInf
  else if Rlt_dec r (- big) then NegInf
  else Num r.

Definition xneg (a : xreal) : xreal :=
  match a with
  | NaN => NaN
  | NegInf => PosInf
  | PosInf => NegInf
  | Num x => Num (- x)
  end.

Definition xadd (a b : xreal) : xreal :=
  match a, b with
  | NaN, _ => NaN
  | _, NaN => NaN
  | PosInf, NegInf => NaN
  | NegInf, PosInf => NaN
  | PosInf, _ => PosInf
  | _, PosInf => PosInf
  | NegInf, _ => NegInf
  | _, NegInf => NegInf
  | Num x, Num y => clamp (x + y)
  end.

Definition xsub (a b : xreal) : xreal := xadd a (xneg b).

(** An infinity times the number [y]. *)
Definition inf_times (pos : bool) (y : R) : xreal :=
  if Rlt_dec 0 y then (if pos then PosInf else NegInf)
  else if Rlt_dec y 0 then (if pos then NegInf else PosInf)
  else NaN.

Definition xmul (a b : xreal) : xreal :=
  match a, b with
  | NaN, _ => NaN
  | _, NaN => NaN
  | Num x, Num y => clamp (x * y)
  | PosInf, Num y => inf_times true y
  | Num y, PosInf => inf_times true y
  | NegInf, Num y => inf_times false y
  | Num y, NegInf => inf_times false y
  | PosInf, PosInf => PosInf
  | NegInf, NegInf => PosInf
  | PosInf, NegInf => NegInf
  | NegInf, PosInf => NegInf
  end.

Definition xdiv (a b : xreal) : xreal :=
  match a, b with
  | NaN, _ => NaN
  | _, NaN => NaN
  | Num x, Num y =>
      if Req_dec_T y 0
      then (if Rlt_dec 0 x then PosInf
            else if Rlt_dec x 0 then NegInf else NaN)
      else clamp (x / y)
  | Num _, _ => Num 0
  | PosInf, Num y => if Rlt_dec y 0 then NegInf else PosInf
  | NegInf, Num y => if Rlt_dec y 0 then PosInf else NegInf
  | _, _ => NaN
  end.

Definition xmax (a b : xreal) : xreal :=
  match a, b with
  | NaN, _ => NaN
  | _, NaN => NaN
  | PosInf, _ => PosInf
  | _, PosInf => PosInf
  | NegInf, _ => b
  | _, NegInf => a
  | Num x, Num y => Num (Rmax x y)
  end.

Definition xexp (a : xreal) : xreal :=
  match a with
  | NaN => NaN
  | NegInf => Num 0
  | PosInf => PosInf
  | Num x => if Rle_dec x (-150) then Num 0 else clamp (exp x)
  end.

Definition xsqrt (a : xreal) : xreal :=
  match a with
  | NaN => NaN
  | NegInf => NaN
  | PosInf => PosInf
  | Num x => if Rlt_dec x 0 then NaN else Num (sqrt x)
  end.

Definition xle (a b : xreal) : Prop :=
  match a, b with
  | NaN, _ => False
  | _, NaN => False
  | NegInf, _ => True
  | _, PosInf => True
  | Num x, Num y => (x <= y)%R
  | _, _ => False
  end.

Definition xfin (a : xreal) : Prop :=
  match a with
  | Num x => (- big <= x <= big)%R
  | _ => False
  end.

Definition xval (a : xreal) : R :=
  match a with
  | Num x => x
  | _ => 0%R
  end.

#[export] Instance X_Scalar : Scalar xreal := {|
  f0 := Num 0;
  fadd := xadd;
  fsub := xsub;
  fmul := xmul;
  fdiv := xdiv;
  fmax := xmax;
  fexp := xexp;
  fsqrt := xsqrt;
  of_int := fun z => clamp (IZR z);
  neg_1e9 := Num (-1000000000)
|}.

#[export] Instance X_Format : FloatFormat xreal := {|
  fin := xfin;
  fle := xle;
  toR := xval;
  eps := 0%R;
  eta := 0%R;
  huge := big;
  underflow_bound := Num (-150);
  small_bound := Num (-20)
|}.

Ltac x_ops :=
  cbn [f0 fadd fsub fmul fdiv fmax fexp fsqrt of_int neg_1e9 X_Scalar
       fin fle toR eps eta huge underflow_bound small_bound X_Format] in *.

(** Decide the comparisons met while a value of [xreal] is computed. *)
Ltac x_case :=
  match goal with
  | |- context [Rlt_dec ?a ?b] => destruct (Rlt_dec a b)
  | |- context [Rle_dec ?a ?b] => destruct (Rle_dec a b)
  | |- context [Req_dec_T ?a ?b] => destruct (Req_dec_T a b)
  | H : context [Rlt_dec ?a ?b] |- _ => destruct (Rlt_dec a b)
  | H : context [Rle_dec ?a ?b] |- _ => destruct (Rle_dec a b)
  | H : context [Req_dec_T ?a ?b] |- _ => destruct (Req_dec_T a b)
  end.

Ltac x_red :=
  cbn [xfin xle xval xneg xadd xsub xmul xdiv xmax xexp xsqrt] in *.

Ltac x_cases :=
  unfold clamp, inf_times, big in *;
  repeat (x_case; x_red; try contradiction; try lra).

(** Concrete inputs in that arithmetic. *)
Definition x_unit_head : Attention xreal :=
  mkAttention (mkArray 1 1 [[Num 1]]) (mkArray 1 1 [[Num 1]])
    (mkArray 1 1 [[Num 1]]) 0 1 1.

Definition x_skew_head : MaskedSelfAttention xreal :=
  mkMaskedSelfAttention (mkArray 1 1 [[Num (-1)]]) (mkArray 1 1 [[Num 1]])
    (mkArray 1 1 [[Num 1]]) 0 1 1.

Definition x_self_head : SelfAttention xreal :=
  mkSelfAttention (mkArray 1 1 [[Num 1]]) (mkArray 1 1 [[Num 1]])
    (mkArray 1 1 [[Num 1]]) 0 1 1.

Definition x_two_tokens : Array xreal := mkArray 2 1 [[Num 1]; [Num 2]].

Definition x_one_token : Array xreal := mkArray 1 1 [[Num 1]].

(** The draw of the stand-in random source, as a number of [xreal]. *)
Definition x_sample (k r c i j : nat) : xreal :=
  Num (IZR (Z.of_nat (k + i * c + j))).

(** Evaluate an expression of [xreal] on concrete numbers. *)
Ltac x_eval :=
  x_ops; x_red;
  repeat (first [ rewrite sqrt_1
                | progress unfold clamp
                | x_case; try (unfold big in *; lra) ];
          x_red).

(** Evaluate a scaled similarity of the reference in that arithmetic. *)
Ltac x_score :=
  unfold ref_masked, ref_scaled, ref_S, ref_Q, ref_K, big_sum, fsum;
  cbn [causal_mask mask_row_2x2 x_unit_head x_skew_head x_self_head
       x_two_tokens x_one_token as_Attention sa_as_Attention with_axes
       get tabulate rows nth map seq fold_left W_q W_k msa_W_q msa_W_k
       sa_W_q sa_W_k Nat.ltb Nat.leb Z.of_nat Pos.of_succ_nat];
  x_eval.

(** * Properties *)

Unset Implicit Arguments.

(** ** Lists and arrays *)

Section ArrayFacts.
Variable A : Type.
Variable dflt : A.

Lemma nth_map_seq (B : Type) (f : nat -> B) (n i : nat) (b : B) :
  i < n -> nth i (map f (seq 0 n)) b = f i.
Proof.
  intros Hi.
  rewrite (nth_indep _ b (f 0)) by (rewrite length_map, length_seq; exact Hi).
  rewrite (map_nth f (seq 0 n) 0 i), seq_nth by exact Hi.
  reflexivity.
Qed.

Lemma list_as_map_nth (l : list A) :
  l = map (fun j => nth j l dflt) (seq 0 (length l)).
Proof.
  apply (nth_ext _ _ dflt dflt).
  - rewrite length_map, length_seq. reflexivity.
  - intros j Hj. rewrite nth_map_seq by exact Hj. reflexivity.
Qed.

Lemma row_tabulate (r c : nat) (f : nat -> nat -> A) (i : nat) :
  i < r -> row (tabulate r c f) i = map (f i) (seq 0 c).
Proof.
  intros Hi. unfold row, tabulate. simpl.
  apply nth_map_seq. exact Hi.
Qed.

Lemma get_tabulate (r c : nat) (f : nat -> nat -> A) (i j : nat) :
  i < r -> j < c -> get dflt (tabulate r c f) i j = f i j.
Proof.
  intros Hi Hj. unfold get. fold (row (tabulate r c f) i).
  rewrite row_tabulate by exact Hi.
  apply nth_map_seq. exact Hj.
Qed.

Lemma tabulate_ext (r c : nat) (f g : nat -> nat -> A) :
  (forall i j, i < r -> j < c -> f i j = g i j) ->
  tabulate r c f = tabulate r c g.
Proof.
  intros H. unfold tabulate. f_equal.
  apply map_ext_in. intros i Hi. apply in_seq in Hi.
  apply map_ext_in. intros j Hj. apply in_seq in Hj.
  apply H; lia.
Qed.

Lemma wf_tabulate (r c : nat) (f : nat -> nat -> A) : wf (tabulate r c f).
Proof.
  split; simpl.
  - rewrite length_map, length_seq. reflexivity.
  - apply Forall_forall. intros l Hl. apply in_map_iff in Hl.
    destruct Hl as [i [<- _]]. rewrite length_map, length_seq. reflexivity.
Qed.

Lemma map_rows_tabulate (g : list A -> list A) (r c : nat)
    (f : nat -> nat -> A) :
  (forall i, i < r -> length (g (map (f i) (seq 0 c))) = c) ->
  map_rows g (tabulate r c f) =
  tabulate r c (fun i j => nth j (g (map (f i) (seq 0 c))) dflt).
Proof.
  intros Hlen. unfold map_rows, tabulate. simpl. f_equal.
  rewrite map_map. apply map_ext_in. intros i Hi. apply in_seq in Hi.
  rewrite (list_as_map_nth (g (map (f i) (seq 0 c)))) at 1.
  rewrite Hlen by lia. reflexivity.
Qed.

Lemma map_array_tabulate (g : A -> A) (r c : nat) (f : nat -> nat -> A) :
  map_array g (tabulate r c f) = tabulate r c (fun i j => g (f i j)).
Proof.
  unfold map_array, map_rows, tabulate. simpl. f_equal.
  rewrite map_map. apply map_ext. intros i. rewrite map_map. reflexivity.
Qed.

Lemma transpose_tabulate (r c : nat) (f : nat -> nat -> A) :
  transpose dflt (tabulate r c f) = tabulate c r (fun i j => f j i).
Proof.
  unfold transpose. simpl. apply tabulate_ext. intros i j Hi Hj.
  apply get_tabulate; assumption.
Qed.

(** Position [t * d + c] of the concatenation of lists of length [d]. *)
Lemma nth_concat_uniform (d : nat) (ls : list (list A)) (t c : nat) :
  Forall (fun l => length l = d) ls -> t < length ls -> c < d ->
  nth (t * d + c) (concat ls) dflt = nth c (nth t ls []) dflt.
Proof.
  intros Hall. revert t. induction Hall as [|l ls Hl Hall IH]; intros t Ht Hc.
  - simpl in Ht. lia.
  - simpl. destruct t as [|t].
    + simpl. apply app_nth1. lia.
    + rewrite app_nth2 by (rewrite Hl; simpl; lia).
      rewrite Hl. replace (S t * d + c - d) with (t * d + c) by (simpl; lia).
      apply IH; [simpl in Ht; lia | exact Hc].
Qed.
End ArrayFacts.

(** ** The array primitives on tabulated arrays *)

Section PrimitiveFacts.
Context {F : Type} {SF : Scalar F}.

Lemma big_sum_ext (n : nat) (f g : nat -> F) :
  (forall t, t < n -> f t = g t) -> big_sum n f = big_sum n g.
Proof.
  intros H. unfold big_sum. f_equal.
  apply map_ext_in. intros t Ht. apply in_seq in Ht. apply H. lia.
Qed.

Lemma matmul_shape_ok (a b : Array F) :
  ncols a = nrows b ->
  matmul a b =
  Ok (tabulate (nrows a) (ncols b)
        (fun i j => big_sum (ncols a)
                      (fun t => fmul (get f0 a i t) (get f0 b t j)))).
Proof.
  intros H. unfold matmul. rewrite H, Nat.eqb_refl. reflexivity.
Qed.

Lemma matmul_shape_err (a b : Array F) :
  ncols a <> nrows b -> matmul a b = Err DotShapeError.
Proof.
  intros H. unfold matmul. apply Nat.eqb_neq in H. rewrite H. reflexivity.
Qed.

Lemma matmul_tabulate (n d m : nat) (f g : nat -> nat -> F) :
  matmul (tabulate n d f) (tabulate d m g) =
  Ok (tabulate n m (fun i j => big_sum d (fun t => fmul (f i t) (g t j)))).
Proof.
  rewrite matmul_shape_ok by reflexivity. simpl nrows. simpl ncols.
  f_equal. apply tabulate_ext. intros i j Hi Hj.
  apply big_sum_ext. intros t Ht.
  rewrite !get_tabulate by assumption. reflexivity.
Qed.

Lemma matmul_wf (a b out : Array F) :
  matmul a b = Ok out ->
  wf out /\ shape out = (nrows a, ncols b) /\ ncols a = nrows b.
Proof.
  unfold matmul. destruct (ncols a =? nrows b) eqn:E; [|discriminate].
  intros H. injection H as <-. apply Nat.eqb_eq in E.
  split; [apply wf_tabulate | split; [reflexivity | exact E]].
Qed.

Lemma bidx_in_range (n i : nat) : i < n -> bidx n i = i.
Proof.
  intros Hi. unfold bidx. destruct (n =? 1) eqn:E; [|reflexivity].
  apply Nat.eqb_eq in E. lia.
Qed.

Lemma broadcast_dim_same (n : nat) : broadcast_dim n n = Ok n.
Proof. unfold broadcast_dim. rewrite Nat.eqb_refl. reflexivity. Qed.

Lemma where_same_shape (m : Array bool) (x : F) (r c : nat)
    (f : nat -> nat -> F) :
  shape m = (r, c) ->
  where_ m x (tabulate r c f) =
  Ok (tabulate r c (fun i j => if get false m i j then x else f i j)).
Proof.
  intros Hs. unfold shape in Hs. injection Hs as Hr Hc.
  unfold where_. simpl nrows. simpl ncols. rewrite Hr, Hc.
  rewrite !broadcast_dim_same. cbn [bind]. f_equal.
  apply tabulate_ext. intros i j Hi Hj.
  rewrite !bidx_in_range by assumption.
  rewrite get_tabulate by assumption. reflexivity.
Qed.

Lemma softmax_lane_length (lane : list F) :
  length (softmax_lane lane) = length lane.
Proof.
  destruct lane as [|x xs]; [reflexivity|].
  unfold softmax_lane. rewrite !length_map. reflexivity.
Qed.

Lemma softmax_rows (r c : nat) (f : nat -> nat -> F) :
  softmax (tabulate r c f) 1 =
  Ok (tabulate r c
        (fun i j => nth j (softmax_lane (map (f i) (seq 0 c))) f0)).
Proof.
  unfold softmax. cbn [normalize_axis bind]. simpl.
  f_equal. apply map_rows_tabulate. intros i _.
  rewrite softmax_lane_length, length_map, length_seq. reflexivity.
Qed.

Lemma swapaxes_0_1 (a : Array F) : swapaxes a 0 1 = Ok (transpose f0 a).
Proof. reflexivity. Qed.

(** The optional masking step, for a mask of the shape of the scores. *)
Lemma mask_step (mask : option (Array bool)) (x : F) (r c : nat)
    (f : nat -> nat -> F) :
  valid_mask mask r c ->
  match mask with
  | Some m => where_ m x (tabulate r c f)
  | None => Ok (tabulate r c f)
  end =
  Ok (tabulate r c
        (fun i j =>
           match mask with
           | Some m => if get false m i j then x else f i j
           | None => f i j
           end)).
Proof.
  intros Hm. destruct mask as [m|].
  - apply where_same_shape. exact Hm.
  - reflexivity.
Qed.
End PrimitiveFacts.

(** ** The forward pass on valid inputs *)

Section ForwardFacts.
Context {F : Type} {SF : Scalar F}.

(** On a valid head and inputs of matching shapes the forward pass
    succeeds, and every local variable is the array the specification
    describes. *)
Lemma Attention_forward_ok (h : Attention F) (xq xk xv : Array F)
    (mask : option (Array bool)) (d n_q n_k : nat) :
  valid_head h d ->
  shape xq = (n_q, d) -> shape xk = (n_k, d) -> shape xv = (n_k, d) ->
  valid_mask mask n_q n_k ->
  Attention_forward h xq xk xv mask =
  Ok (mkForward
        (tabulate n_q d (ref_Q (W_q h) d xq))
        (tabulate n_k d (ref_K (W_k h) d xk))
        (tabulate n_k d (ref_V (W_v h) d xv))
        (tabulate n_q n_k (ref_S (W_q h) (W_k h) d xq xk))
        (tabulate n_q n_k (ref_masked (W_q h) (W_k h) d xq xk mask))
        (tabulate n_q n_k (ref_weights (W_q h) (W_k h) d xq xk mask n_k))
        (tabulate n_q d
           (ref_output (W_q h) (W_k h) (W_v h) d xq xk xv mask n_k))).
Proof.
  intros (Hr & Hc & Hd & Hwq & Hwk & Hwv) Hq Hk Hv Hm.
  unfold shape in *.
  injection Hwq as Hwq1 Hwq2. injection Hwk as Hwk1 Hwk2.
  injection Hwv as Hwv1 Hwv2. injection Hq as Hq1 Hq2.
  injection Hk as Hk1 Hk2. injection Hv as Hv1 Hv2.
  unfold Attention_forward.
  rewrite (matmul_shape_ok xq (W_q h)) by congruence.
  rewrite (matmul_shape_ok xk (W_k h)) by congruence.
  rewrite (matmul_shape_ok xv (W_v h)) by congruence.
  rewrite Hq1, Hq2, Hk1, Hk2, Hv1, Hv2, Hwq2, Hwk2, Hwv2, Hr, Hc, Hd.
  cbn [bind]. rewrite swapaxes_0_1. cbn [bind].
  rewrite transpose_tabulate, matmul_tabulate. cbn [bind].
  unfold div_scalar. rewrite map_array_tabulate.
  rewrite (mask_step mask neg_1e9 n_q n_k _ Hm). cbn [bind].
  rewrite softmax_rows. cbn [bind].
  rewrite matmul_tabulate. reflexivity.
Qed.
End ForwardFacts.

(** ** The three classes share one forward pass *)

Section Views.
Context {F : Type} {SF : Scalar F}.

Lemma MaskedSelfAttention_forward_as_Attention (m : MaskedSelfAttention F)
    (x : Array F) (mask : option (Array bool)) :
  MaskedSelfAttention_forward m x mask =
  Attention_forward (as_Attention m) x x x mask.
Proof. reflexivity. Qed.

Lemma MaskedSelfAttention_call_as_Attention (m : MaskedSelfAttention F)
    (x : Array F) (mask : option (Array bool)) :
  MaskedSelfAttention_call m x mask =
  Attention_call (as_Attention m) x x x mask.
Proof. reflexivity. Qed.

Lemma SelfAttention_forward_as_Attention (s : SelfAttention F)
    (x : Array F) :
  SelfAttention_forward s x = Attention_forward (sa_as_Attention s) x x x None.
Proof. reflexivity. Qed.

Lemma SelfAttention_call_as_Attention (s : SelfAttention F) (x : Array F) :
  SelfAttention_call s x = Attention_call (sa_as_Attention s) x x x None.
Proof. reflexivity. Qed.

Lemma Attention_call_ok (h : Attention F) (xq xk xv : Array F)
    (mask : option (Array bool)) (d n_q n_k : nat) :
  valid_head h d ->
  shape xq = (n_q, d) -> shape xk = (n_k, d) -> shape xv = (n_k, d) ->
  valid_mask mask n_q n_k ->
  Attention_call h xq xk xv mask =
  Ok (attention_reference (W_q h) (W_k h) (W_v h) d xq xk xv mask n_q n_k).
Proof.
  intros Hh Hq Hk Hv Hm. unfold Attention_call.
  rewrite (Attention_forward_ok h xq xk xv mask d n_q n_k Hh Hq Hk Hv Hm).
  reflexivity.
Qed.
End Views.

(** C1.  On a valid head, for a query source of shape [(n_q, d)], key and
    value sources of shape [(n_k, d)] and an optional mask of shape
    [(n_q, n_k)], the call of [Attention] returns exactly the array the
    specification describes: weights times V, with Q, K, V the three
    projections, the similarities divided by [sqrt d], masked entries
    replaced by [-1e9] and the weights the row-wise softmax.  The result
    is well formed and of shape [(n_q, d)].  [MaskedSelfAttention] returns
    the same array with the token encodings in the three places.  The call
    is a function of the head and its arguments: it returns a value and
    changes nothing. *)
Theorem attention_call_computes_reference :
  forall (F : Type) (SF : Scalar F) (d n_q n_k : nat)
         (query_source key_source value_source : Array F)
         (mask : option (Array bool)),
    shape query_source = (n_q, d) ->
    shape key_source = (n_k, d) ->
    shape value_source = (n_k, d) ->
    valid_mask mask n_q n_k ->
    (forall h : Attention F,
        valid_head h d ->
        let out :=
          attention_reference (W_q h) (W_k h) (W_v h) d
            query_source key_source value_source mask n_q n_k in
        Attention_call h query_source key_source value_source mask = Ok out /\
        shape out = (n_q, d) /\ wf out) /\
    (forall m : MaskedSelfAttention F,
        valid_head (as_Attention m) d ->
        key_source = query_source -> value_source = query_source ->
        MaskedSelfAttention_call m query_source mask =
        Ok (attention_reference (msa_W_q m) (msa_W_k m) (msa_W_v m) d
              query_source query_source query_source mask n_q n_k)).
Proof.
  intros F SF d n_q n_k xq xk xv mask Hq Hk Hv Hm. split.
  - intros h Hh out. split; [|split].
    + apply Attention_call_ok; assumption.
    + reflexivity.
    + apply wf_tabulate.
  - intros m Hh Ek Ev. subst xk xv.
    rewrite MaskedSelfAttention_call_as_Attention.
    rewrite (Attention_call_ok _ _ _ _ _ _ _ _ Hh Hq Hk Hv Hm). reflexivity.
Qed.

Lemma attention_call_computes_reference_witness :
  (Attention_call unit_head two_tokens two_tokens two_tokens
     (Some mask_2x2_first_row) =
   Ok (attention_reference (W_q unit_head) (W_k unit_head) (W_v unit_head) 1
         two_tokens two_tokens two_tokens (Some mask_2x2_first_row) 2 2)) /\
  (MaskedSelfAttention_call skew_head two_tokens (Some mask_2x2_first_row) =
   Ok (attention_reference (msa_W_q skew_head) (msa_W_k skew_head)
         (msa_W_v skew_head) 1 two_tokens two_tokens two_tokens
         (Some mask_2x2_first_row) 2 2)).
Proof.
  destruct (attention_call_computes_reference R R_Scalar 1 2 2
              two_tokens two_tokens two_tokens (Some mask_2x2_first_row)
              eq_refl eq_refl eq_refl eq_refl) as [HA HM].
  split.
  - apply (HA unit_head). repeat split.
  - apply (HM skew_head); repeat split.
Defined.

(** ** Constructors *)

Section ConstructorFacts.
Context {F : Type} {SF : Scalar F}.
Variable key : Type.
Variable fold_in : key -> nat -> key.
Variable sample : key -> nat -> nat -> nat -> nat -> F.

Lemma random_uniform_square (k : key) (d : Z) :
  random_uniform sample k d d =
  if (d <? 0)%Z then Err NegativeDimError
  else Ok (tabulate (Z.to_nat d) (Z.to_nat d)
             (sample k (Z.to_nat d) (Z.to_nat d))).
Proof.
  unfold random_uniform. destruct (d <? 0)%Z; reflexivity.
Qed.

Lemma Attention_init_eq (d r c : Z) (rngs : Rngs key) :
  Attention_init fold_in sample d r c rngs =
  if (d <? 0)%Z then Err NegativeDimError
  else let w := drawn_weights fold_in sample d rngs in
       Ok (mkAttention w w w r c d, advance rngs).
Proof.
  unfold Attention_init, Rngs_params. rewrite random_uniform_square.
  destruct (d <? 0)%Z; reflexivity.
Qed.

Lemma MaskedSelfAttention_init_eq (d r c : Z) (rngs : Rngs key) :
  MaskedSelfAttention_init fold_in sample d r c rngs =
  if (d <? 0)%Z then Err NegativeDimError
  else let w := drawn_weights fold_in sample d rngs in
       Ok (mkMaskedSelfAttention w w w r c d, advance rngs).
Proof.
  unfold MaskedSelfAttention_init, Rngs_params.
  rewrite random_uniform_square.
  destruct (d <? 0)%Z; reflexivity.
Qed.

Lemma SelfAttention_init_eq (d r c : Z) (rngs : Rngs key) :
  SelfAttention_init fold_in sample d r c rngs =
  if (d <? 0)%Z then Err NegativeDimError
  else let w := drawn_weights fold_in sample d rngs in
       Ok (mkSelfAttention w w w r c d, advance rngs).
Proof.
  unfold SelfAttention_init, Rngs_params. rewrite random_uniform_square.
  destruct (d <? 0)%Z; reflexivity.
Qed.

Lemma Attention_init_inv (d r c : Z) (rngs rngs' : Rngs key)
    (h : Attention F) :
  Attention_init fold_in sample d r c rngs = Ok (h, rngs') ->
  h = mkAttention (drawn_weights fold_in sample d rngs) (drawn_weights fold_in sample d rngs)
        (drawn_weights fold_in sample d rngs) r c d /\
  rngs' = advance rngs /\ (0 <= d)%Z.
Proof.
  rewrite Attention_init_eq. destruct (d <? 0)%Z eqn:E; [discriminate|].
  cbv zeta. intros H. injection H as <- <-.
  apply Z.ltb_ge in E. repeat split. exact E.
Qed.

(** The heads of a multi-head module are built in list order, head [t]
    from the key the stream hands out [t] draws after the first. *)
Lemma make_heads_order (n : nat) (d r c : Z) (rngs rngs' : Rngs key)
    (hs : list (Attention F)) :
  make_heads fold_in sample n d r c rngs = Ok (hs, rngs') ->
  length hs = n /\
  rngs' = mkRngs (base_key rngs) (count rngs + n) /\
  forall t h0, t < n ->
    nth t hs h0 =
    let w := drawn_weights fold_in sample d (mkRngs (base_key rngs) (count rngs + t)) in
    mkAttention w w w r c d.
Proof.
  revert rngs rngs' hs. induction n as [|n IH]; intros rngs rngs' hs; simpl.
  - intros H. injection H as <- <-. repeat split.
    + destruct rngs; simpl. rewrite Nat.add_0_r. reflexivity.
    + intros t h0 Ht. lia.
  - destruct (Attention_init fold_in sample d r c rngs) as [[h r1]|e] eqn:E;
      [|discriminate]. cbn [bind fst snd].
    destruct (make_heads fold_in sample n d r c r1) as [[hs1 r2]|e] eqn:E1;
      [|discriminate]. cbn [bind fst snd].
    intros H. injection H as <- <-.
    apply Attention_init_inv in E. destruct E as (-> & -> & _).
    apply IH in E1. destruct E1 as (Hlen & -> & Hnth).
    split; [simpl; lia|]. split.
    + simpl. f_equal. lia.
    + intros t h0 Ht. destruct t as [|t].
      * simpl. destruct rngs; simpl. rewrite Nat.add_0_r. reflexivity.
      * simpl nth. rewrite (Hnth t h0) by lia.
        cbv zeta. unfold advance. cbn [base_key count].
        replace (count rngs + S t) with (S (count rngs) + t) by lia.
        reflexivity.
Qed.
End ConstructorFacts.

(** ** What a successful forward pass went through *)

Section Inversion.
Context {F : Type} {SF : Scalar F}.

Lemma Attention_forward_inv (h : Attention F) (xq xk xv : Array F)
    (mask : option (Array bool)) (fw : Forward F) :
  Attention_forward h xq xk xv mask = Ok fw ->
  matmul xq (W_q h) = Ok (q_proj fw) /\
  matmul xk (W_k h) = Ok (k_proj fw) /\
  matmul xv (W_v h) = Ok (v_proj fw) /\
  (exists ax, normalize_axis (col_dim h) = Ok ax) /\
  matmul (attention_percents fw) (v_proj fw) = Ok (attention_scores fw).
Proof.
  unfold Attention_forward.
  destruct (matmul xq (W_q h)) as [q|] eqn:Eq; [|discriminate].
  destruct (matmul xk (W_k h)) as [k|] eqn:Ek; [|discriminate].
  destruct (matmul xv (W_v h)) as [v|] eqn:Ev; [|discriminate].
  cbn [bind].
  destruct (swapaxes k (row_dim h) (col_dim h)) as [kt|]; [|discriminate].
  cbn [bind].
  destruct (matmul q kt) as [s|]; [|discriminate]. cbn [bind].
  destruct (match mask with
            | Some m => where_ m neg_1e9 _
            | None => Ok _
            end) as [s'|]; [|discriminate]. cbn [bind].
  destruct (softmax s' (col_dim h)) as [p|] eqn:Es; [|discriminate].
  cbn [bind].
  destruct (matmul p v) as [o|] eqn:Eo; [|discriminate]. cbn [bind].
  intros H. injection H as <-. cbn [q_proj k_proj v_proj attention_percents
                                    attention_scores].
  repeat split; try reflexivity; try assumption.
  unfold softmax in Es.
  destruct (normalize_axis (col_dim h)) as [ax|]; [|discriminate].
  exists ax. reflexivity.
Qed.

Lemma Attention_call_inv (h : Attention F) (xq xk xv : Array F)
    (mask : option (Array bool)) (out : Array F) :
  Attention_call h xq xk xv mask = Ok out ->
  wf out /\ exists ax, normalize_axis (col_dim h) = Ok ax.
Proof.
  unfold Attention_call.
  destruct (Attention_forward h xq xk xv mask) as [fw|] eqn:E;
    [|discriminate].
  cbn [bind]. intros H. injection H as <-.
  apply Attention_forward_inv in E.
  destruct E as (_ & _ & _ & Hax & Ho).
  split; [|exact Hax]. apply matmul_wf in Ho. apply Ho.
Qed.

Lemma concatenate_single (a : Array F) (axis : Z) (ax : nat) :
  normalize_axis axis = Ok ax -> length (rows a) = nrows a ->
  concatenate [a] axis = Ok a.
Proof.
  intros Hax Hlen. unfold concatenate. rewrite Hax. cbn [bind forallb].
  destruct a as [n c rs]. simpl in *.
  destruct ax as [|ax]; f_equal.
  - rewrite Nat.add_0_r, app_nil_r. reflexivity.
  - rewrite Nat.add_0_r. f_equal.
    transitivity (map (fun j => nth j rs []) (seq 0 (length rs))).
    + rewrite Hlen. apply map_ext. intros i. apply app_nil_r.
    + symmetry. apply list_as_map_nth.
Qed.

Lemma single_head_call (m : MultiHeadAttention F) (h : Attention F)
    (xq xk xv : Array F) :
  heads m = [h] -> mha_col_dim m = col_dim h ->
  MultiHeadAttention_call m xq xk xv = Attention_call h xq xk xv None.
Proof.
  intros Hh Hc. unfold MultiHeadAttention_call. rewrite Hh, Hc.
  cbn [mapM].
  destruct (Attention_call h xq xk xv None) as [out|e] eqn:E;
    [|reflexivity].
  cbn [bind]. apply Attention_call_inv in E.
  destruct E as ([Hlen _] & ax & Hax).
  apply (concatenate_single out (col_dim h) ax Hax Hlen).
Qed.
End Inversion.

(** C3.  A [MultiHeadAttention] constructed with [num_heads = 1] holds
    exactly the head [Attention] builds from the same arguments and
    stream, and on every input its call returns what the call of that
    head returns, result or error: concatenating the single output adds
    nothing to it. *)
Theorem single_head_output_identical :
  forall (F : Type) (SF : Scalar F) (key : Type)
         (fold_in : key -> nat -> key)
         (sample : key -> nat -> nat -> nat -> nat -> F)
         (d r c : Z) (rngs rngs' : Rngs key) (m : MultiHeadAttention F),
    MultiHeadAttention_init fold_in sample d r c 1 rngs = Ok (m, rngs') ->
    exists h : Attention F,
      Attention_init fold_in sample d r c rngs = Ok (h, rngs') /\
      heads m = [h] /\
      forall xq xk xv : Array F,
        MultiHeadAttention_call m xq xk xv = Attention_call h xq xk xv None.
Proof.
  intros F SF key fold_in sample d r c rngs rngs' m.
  unfold MultiHeadAttention_init. change (Z.to_nat 1) with 1.
  cbn [make_heads].
  destruct (Attention_init fold_in sample d r c rngs) as [[h r1]|e] eqn:E;
    [|discriminate].
  cbn [bind fst snd]. intros H. injection H as <- <-.
  exists h. split; [reflexivity|]. split; [reflexivity|].
  intros xq xk xv. apply single_head_call; [reflexivity|].
  apply Attention_init_inv in E. destruct E as (-> & _ & _). reflexivity.
Qed.

Lemma single_head_output_identical_witness :
  exists h : Attention R,
    Attention_init demo_fold_in demo_sample 2 0 1 demo_rngs =
    Ok (h, advance demo_rngs) /\
    heads (mkMultiHeadAttention
             [mkAttention (drawn_weights demo_fold_in demo_sample 2 demo_rngs)
                (drawn_weights demo_fold_in demo_sample 2 demo_rngs)
                (drawn_weights demo_fold_in demo_sample 2 demo_rngs) 0 1 2]
             1) = [h] /\
    forall xq xk xv : Array R,
      MultiHeadAttention_call
        (mkMultiHeadAttention
           [mkAttention (drawn_weights demo_fold_in demo_sample 2 demo_rngs)
              (drawn_weights demo_fold_in demo_sample 2 demo_rngs)
              (drawn_weights demo_fold_in demo_sample 2 demo_rngs) 0 1 2]
           1) xq xk xv =
      Attention_call h xq xk xv None.
Proof.
  apply (single_head_output_identical R R_Scalar nat demo_fold_in
           demo_sample 2 0 1 demo_rngs (advance demo_rngs)).
  reflexivity.
Defined.

(** C10.  Each of the three constructors takes one key from the stream
    and draws the three projection matrices from that same key, so the
    head it returns has [W_q = W_k = W_v]; consequently, whenever a forward
    pass over one token matrix succeeds, its projections Q, K and V are
    the same array. *)
Theorem constructors_share_one_key :
  forall (F : Type) (SF : Scalar F) (key : Type)
         (fold_in : key -> nat -> key)
         (sample : key -> nat -> nat -> nat -> nat -> F)
         (d r c : Z) (rngs : Rngs key),
    (0 <= d)%Z ->
    let w := drawn_weights fold_in sample d rngs in
    Attention_init fold_in sample d r c rngs =
      Ok (mkAttention w w w r c d, advance rngs) /\
    SelfAttention_init fold_in sample d r c rngs =
      Ok (mkSelfAttention w w w r c d, advance rngs) /\
    MaskedSelfAttention_init fold_in sample d r c rngs =
      Ok (mkMaskedSelfAttention w w w r c d, advance rngs) /\
    (forall (x : Array F) (mask : option (Array bool)) (fw : Forward F),
        Attention_forward (mkAttention w w w r c d) x x x mask = Ok fw \/
        MaskedSelfAttention_forward (mkMaskedSelfAttention w w w r c d)
          x mask = Ok fw \/
        SelfAttention_forward (mkSelfAttention w w w r c d) x = Ok fw ->
        q_proj fw = k_proj fw /\ k_proj fw = v_proj fw).
Proof.
  intros F SF key fold_in sample d r c rngs Hd w.
  assert (E : (d <? 0)%Z = false) by (apply Z.ltb_ge; exact Hd).
  split; [|split; [|split]].
  - rewrite Attention_init_eq, E. reflexivity.
  - rewrite SelfAttention_init_eq, E. reflexivity.
  - rewrite MaskedSelfAttention_init_eq, E. reflexivity.
  - intros x mask fw H.
    assert (Hp : matmul x w = Ok (q_proj fw) /\
                 matmul x w = Ok (k_proj fw) /\
                 matmul x w = Ok (v_proj fw)).
    { destruct H as [H|[H|H]].
      - apply Attention_forward_inv in H.
        destruct H as (Hq & Hk & Hv & _). auto.
      - rewrite MaskedSelfAttention_forward_as_Attention in H.
        apply Attention_forward_inv in H.
        destruct H as (Hq & Hk & Hv & _). auto.
      - rewrite SelfAttention_forward_as_Attention in H.
        apply Attention_forward_inv in H.
        destruct H as (Hq & Hk & Hv & _). auto. }
    destruct Hp as (Hq & Hk & Hv). split; congruence.
Qed.

(** C5, as the code has it.  Constructing [MultiHeadAttention] with
    [num_heads = 0] succeeds: it returns an instance with an empty list of
    heads and leaves the stream untouched.  It is the call on such an
    instance that fails, for every input, when zero outputs are
    concatenated. *)
Theorem zero_heads_constructed_call_fails :
  forall (F : Type) (SF : Scalar F) (key : Type)
         (fold_in : key -> nat -> key)
         (sample : key -> nat -> nat -> nat -> nat -> F)
         (d r c : Z) (rngs : Rngs key),
    MultiHeadAttention_init fold_in sample d r c 0 rngs =
      Ok (mkMultiHeadAttention [] c, rngs) /\
    forall xq xk xv : Array F,
      MultiHeadAttention_call (mkMultiHeadAttention [] c) xq xk xv =
      Err ConcatEmptyError.
Proof.
  intros. split; [reflexivity|]. intros. reflexivity.
Qed.

(** C5 as stated fails: with [num_heads = 0] the constructor returns an
    instance, and that instance has no head. *)
Lemma zero_heads_construction_succeeds :
  exists (m : MultiHeadAttention R) (rngs' : Rngs nat),
    MultiHeadAttention_init demo_fold_in demo_sample 2 0 1 0 demo_rngs =
      Ok (m, rngs') /\
    heads m = [].
Proof.
  exists (mkMultiHeadAttention [] 1), demo_rngs. split; reflexivity.
Qed.

(** ** Concatenation along the feature axis *)

Section ConcatFacts.
Context {F : Type} {SF : Scalar F}.

Lemma mapM_pointwise {A B : Type} (f : A -> result B) (g : A -> B)
    (l : list A) :
  (forall a, In a l -> f a = Ok (g a)) -> mapM f l = Ok (map g l).
Proof.
  induction l as [|a l IH]; intros H; [reflexivity|].
  cbn [mapM map]. rewrite (H a) by (left; reflexivity). cbn [bind].
  rewrite IH by (intros b Hb; apply H; right; exact Hb). reflexivity.
Qed.

Lemma concatenate_cols (o : Array F) (os : list (Array F)) :
  Forall (fun b => nrows b = nrows o) os ->
  concatenate (o :: os) 1 =
  Ok (mkArray (nrows o) (list_sum (map (@ncols F) (o :: os)))
        (map (fun i => concat (map (fun b => row b i) (o :: os)))
             (seq 0 (nrows o)))).
Proof.
  intros Hall. unfold concatenate. cbn [normalize_axis bind]. simpl Z.to_nat.
  replace (forallb (fun b => nrows b =? nrows o) os) with true; [reflexivity|].
  symmetry. apply forallb_forall. intros b Hb. apply Nat.eqb_eq.
  rewrite Forall_forall in Hall. apply Hall. exact Hb.
Qed.

Lemma row_hjoin (a b : Array F) (i : nat) :
  i < nrows a -> row (hjoin a b) i = row a i ++ row b i.
Proof.
  intros Hi. unfold hjoin, row at 1. simpl rows.
  apply (nth_map_seq _ (fun i => row a i ++ row b i)). exact Hi.
Qed.

(** The array [concatenate] builds is the left-to-right join. *)
Lemma cols_as_hstack (os : list (Array F)) (o : Array F) :
  length (rows o) = nrows o ->
  mkArray (nrows o) (list_sum (map (@ncols F) (o :: os)))
    (map (fun i => concat (map (fun b => row b i) (o :: os)))
         (seq 0 (nrows o))) =
  hstack o os.
Proof.
  revert o. induction os as [|b os IH]; intros o Hlen.
  - unfold hstack. simpl. destruct o as [n c rs]. simpl in *.
    rewrite Nat.add_0_r. f_equal.
    transitivity (map (fun j => nth j rs []) (seq 0 (length rs))).
    + rewrite Hlen. apply map_ext. intros i. apply app_nil_r.
    + symmetry. apply list_as_map_nth.
  - unfold hstack. cbn [fold_left]. fold (hstack (hjoin o b) os).
    rewrite <- IH.
    + cbn [map list_sum fold_right concat].
      change (nrows (hjoin o b)) with (nrows o).
      change (ncols (hjoin o b)) with (ncols o + ncols b).
      rewrite Nat.add_assoc. f_equal.
      apply map_ext_in. intros i Hi. apply in_seq in Hi.
      rewrite row_hjoin by lia. rewrite <- app_assoc. reflexivity.
    + unfold hjoin. simpl. rewrite length_map, length_seq. reflexivity.
Qed.

Lemma list_sum_const (A : Type) (f : A -> nat) (l : list A) (d : nat) :
  (forall a, In a l -> f a = d) -> list_sum (map f l) = length l * d.
Proof.
  induction l as [|a l IH]; intros H; [reflexivity|].
  cbn [map list_sum fold_right length]. rewrite (H a) by (left; reflexivity).
  fold (list_sum (map f l)).
  rewrite IH by (intros b Hb; apply H; right; exact Hb). simpl. reflexivity.
Qed.
End ConcatFacts.

(** C8.  For a [MultiHeadAttention] with at least one head, valid heads
    of width [d] and the column axis 1, on inputs of shapes [(n_q, d)],
    [(n_k, d)], [(n_k, d)]: every head returns an output, listed in the
    order of the heads; the call returns their left-to-right join
    [[O_1 | O_2 | ... | O_k]]; the result is well formed, of shape
    [(n_q, k * d)], and its columns [t * d .. t * d + d - 1] are the
    output of head [t]. *)
Theorem multi_head_output_is_concatenation :
  forall (F : Type) (SF : Scalar F) (m : MultiHeadAttention F)
         (xq xk xv : Array F) (d n_q n_k : nat),
    heads m <> [] ->
    mha_col_dim m = 1%Z ->
    Forall (fun h => valid_head h d) (heads m) ->
    shape xq = (n_q, d) -> shape xk = (n_k, d) -> shape xv = (n_k, d) ->
    exists (o : Array F) (os : list (Array F)) (out : Array F),
      Forall2 (fun h o' => Attention_call h xq xk xv None = Ok o')
        (heads m) (o :: os) /\
      MultiHeadAttention_call m xq xk xv = Ok out /\
      out = hstack o os /\
      shape out = (n_q, length (heads m) * d) /\
      wf out /\
      forall t i c, t < length (heads m) -> i < n_q -> c < d ->
        get f0 out i (t * d + c) = get f0 (nth t (o :: os) o) i c.
Proof.
  intros F SF m xq xk xv d n_q n_k Hne Hcol Hvalid Hq Hk Hv.
  set (g := fun h : Attention F =>
              attention_reference (W_q h) (W_k h) (W_v h) d xq xk xv None
                n_q n_k).
  assert (Hcall : forall h, In h (heads m) ->
                    Attention_call h xq xk xv None = Ok (g h)).
  { intros h Hin. rewrite Forall_forall in Hvalid.
    apply (Attention_call_ok h xq xk xv None d n_q n_k);
      [apply Hvalid; exact Hin | assumption .. | exact I]. }
  assert (Hshape : forall b, In b (map g (heads m)) ->
                     nrows b = n_q /\ ncols b = d /\ wf b).
  { intros b Hb. apply in_map_iff in Hb. destruct Hb as [h [<- _]].
    repeat split; apply wf_tabulate. }
  assert (Hmap : mapM (fun head => Attention_call head xq xk xv None)
                   (heads m) = Ok (map g (heads m))).
  { apply mapM_pointwise. exact Hcall. }
  assert (Hlen : length (map g (heads m)) = length (heads m))
    by apply length_map.
  destruct (heads m) as [|h1 hs] eqn:Hh; [contradiction|].
  cbn [map] in *.
  assert (Hrows : Forall (fun b => nrows b = nrows (g h1)) (map g hs)).
  { apply Forall_forall. intros b Hb.
    destruct (Hshape b (or_intror Hb)) as [-> _]. reflexivity. }
  exists (g h1), (map g hs), (hstack (g h1) (map g hs)).
  assert (Hcat : concatenate (g h1 :: map g hs) 1 =
                 Ok (hstack (g h1) (map g hs))).
  { rewrite (concatenate_cols _ _ Hrows). f_equal.
    apply cols_as_hstack. apply wf_tabulate. }
  assert (Hrowlen : forall i, i < n_q ->
            Forall (fun l => length l = d)
              (map (fun b => row b i) (g h1 :: map g hs))).
  { intros i Hi. apply Forall_forall. intros l Hl.
    apply in_map_iff in Hl. destruct Hl as [b [<- Hb]].
    destruct (Hshape b Hb) as (Hn & Hc & Hlenb & Hall).
    rewrite Forall_forall in Hall. rewrite <- Hc. apply Hall.
    unfold row. apply nth_In. lia. }
  split; [|split; [|split; [reflexivity|]]].
  - constructor; [apply Hcall; left; reflexivity|].
    clear - Hcall. induction hs as [|h hs IH]; [constructor|].
    cbn [map]. constructor.
    + apply Hcall. right. left. reflexivity.
    + apply IH. intros h' [<-|Hin]; apply Hcall;
        [left; reflexivity | right; right; exact Hin].
  - unfold MultiHeadAttention_call. rewrite Hh, Hmap, Hcol. cbn [bind map].
    exact Hcat.
  - rewrite <- (cols_as_hstack (map g hs) (g h1)) by apply wf_tabulate.
    change (nrows (g h1)) with n_q.
    split; [|split].
    + unfold shape. cbn [nrows ncols]. f_equal.
      rewrite <- Hlen.
      apply (list_sum_const _ (@ncols F) (g h1 :: map g hs) d).
      intros b Hb. apply (Hshape b Hb).
    + split; cbn [rows nrows ncols].
      * rewrite length_map, length_seq. reflexivity.
      * apply Forall_forall. intros l Hl. apply in_map_iff in Hl.
        destruct Hl as [i [<- Hi]]. apply in_seq in Hi.
        rewrite length_concat, map_map.
        rewrite (list_sum_const _ (fun b => length (row b i))
                   (g h1 :: map g hs) d).
        -- symmetry. apply (list_sum_const _ (@ncols F)).
           intros b Hb. apply (Hshape b Hb).
        -- intros b Hb. specialize (Hrowlen i (proj2 Hi)).
           rewrite Forall_forall in Hrowlen. apply Hrowlen.
           apply (in_map (fun b => row b i)). exact Hb.
    + intros t i c Ht Hi Hc. unfold get at 1. cbn [rows].
      rewrite (nth_map_seq _
                 (fun i => concat (map (fun b => row b i)
                                     (g h1 :: map g hs)))) by exact Hi.
      rewrite (nth_concat_uniform _ f0 d _ t c (Hrowlen i Hi))
        by (try rewrite length_map; cbn [length] in *; lia).
      rewrite (nth_indep _ [] (row (g h1) i))
        by (rewrite length_map; cbn [length] in *; lia).
      rewrite (map_nth (fun b => row b i)). reflexivity.
Qed.

(** ** Shape errors *)

Section ShapeErrors.
Context {F : Type} {SF : Scalar F}.

(** With the three feature dimensions equal to [d], the projections and
    the similarities are computed; what remains is the masking, the
    softmax and the final product. *)
Lemma Attention_forward_prefix (h : Attention F) (xq xk xv : Array F)
    (mask : option (Array bool)) (d : nat) :
  valid_head h d -> ncols xq = d -> ncols xk = d -> ncols xv = d ->
  Attention_forward h xq xk xv mask =
  (let Q := tabulate (nrows xq) d (ref_Q (W_q h) d xq) in
   let K := tabulate (nrows xk) d (ref_K (W_k h) d xk) in
   let V := tabulate (nrows xv) d (ref_V (W_v h) d xv) in
   let S := tabulate (nrows xq) (nrows xk)
              (ref_S (W_q h) (W_k h) d xq xk) in
   let S' := tabulate (nrows xq) (nrows xk)
               (ref_scaled (W_q h) (W_k h) d xq xk) in
   s <- match mask with
        | Some m => where_ m neg_1e9 S'
        | None => Ok S'
        end ;;
   p <- softmax s 1 ;;
   o <- matmul p V ;;
   Ok (mkForward Q K V S s p o)).
Proof.
  intros (Hr & Hc & Hd & Hwq & Hwk & Hwv) Hq Hk Hv.
  unfold shape in *.
  injection Hwq as Hwq1 Hwq2. injection Hwk as Hwk1 Hwk2.
  injection Hwv as Hwv1 Hwv2.
  unfold Attention_forward.
  rewrite (matmul_shape_ok xq (W_q h)) by congruence.
  rewrite (matmul_shape_ok xk (W_k h)) by congruence.
  rewrite (matmul_shape_ok xv (W_v h)) by congruence.
  rewrite Hq, Hk, Hv, Hwq2, Hwk2, Hwv2, Hr, Hc, Hd.
  cbn [bind]. rewrite swapaxes_0_1. cbn [bind].
  rewrite transpose_tabulate, matmul_tabulate. cbn [bind].
  unfold div_scalar. rewrite map_array_tabulate. reflexivity.
Qed.

Lemma feature_dim_error (h : Attention F) (xq xk xv : Array F)
    (mask : option (Array bool)) (d : nat) :
  valid_head h d ->
  ncols xq <> d \/ ncols xk <> d \/ ncols xv <> d ->
  Attention_forward h xq xk xv mask = Err DotShapeError.
Proof.
  intros (_ & _ & _ & Hwq & Hwk & Hwv) H.
  unfold shape in *.
  injection Hwq as Hwq1 _. injection Hwk as Hwk1 _.
  injection Hwv as Hwv1 _.
  unfold Attention_forward.
  destruct (Nat.eq_dec (ncols xq) d) as [Eq|Nq].
  - rewrite (matmul_shape_ok xq (W_q h)) by congruence. cbn [bind].
    destruct (Nat.eq_dec (ncols xk) d) as [Ek|Nk].
    + rewrite (matmul_shape_ok xk (W_k h)) by congruence. cbn [bind].
      rewrite (matmul_shape_err xv (W_v h)); [reflexivity|].
      rewrite Hwv1. tauto.
    + rewrite (matmul_shape_err xk (W_k h)) by congruence. reflexivity.
  - rewrite (matmul_shape_err xq (W_q h)) by congruence. reflexivity.
Qed.

Lemma broadcast_dim_to (a n : nat) :
  a = n \/ a = 1 -> broadcast_dim a n = Ok n.
Proof.
  intros [->| ->]; unfold broadcast_dim.
  - rewrite Nat.eqb_refl. reflexivity.
  - destruct (1 =? n) eqn:E; [|reflexivity].
    apply Nat.eqb_eq in E. rewrite E. reflexivity.
Qed.

Lemma where_broadcast (m : Array bool) (x : F) (r c : nat)
    (f : nat -> nat -> F) :
  nrows m = r \/ nrows m = 1 -> ncols m = c \/ ncols m = 1 ->
  where_ m x (tabulate r c f) =
  Ok (tabulate r c
        (fun i j =>
           if get false m (bidx (nrows m) i) (bidx (ncols m) j)
           then x else f i j)).
Proof.
  intros Hr Hc. unfold where_. cbn [nrows ncols tabulate].
  rewrite (broadcast_dim_to _ _ Hr), (broadcast_dim_to _ _ Hc).
  cbn [bind]. f_equal. apply tabulate_ext. intros i j Hi Hj.
  rewrite (bidx_in_range r i Hi), (bidx_in_range c j Hj).
  fold (tabulate r c f). rewrite get_tabulate by assumption. reflexivity.
Qed.

Lemma broadcast_dim_err (a n : nat) (e : error) :
  broadcast_dim a n = Err e -> e = BroadcastError.
Proof.
  unfold broadcast_dim.
  destruct (a =? n); [discriminate|].
  destruct (a =? 1); [discriminate|].
  destruct (n =? 1); [discriminate|].
  intros H. injection H as <-. reflexivity.
Qed.
End ShapeErrors.

(** C4, as the code has it.  On a valid head of width [d] the call fails,
    returning an error and no array, (1) whenever the feature dimension of
    one of the three inputs differs from [d]; (2) with no mask, or a mask
    of shape [(n_q, n_k)], whenever key and value sources differ in
    sequence length; (3) whenever the mask cannot be broadcast against
    [(n_q, n_k)].  A mask whose dimensions are each the matching one of
    [(n_q, n_k)] or 1 is broadcast and accepted (4).  The errors are those
    of the array primitives. *)
Theorem attention_call_shape_errors :
  forall (F : Type) (SF : Scalar F) (h : Attention F) (d : nat)
         (xq xk xv : Array F) (mask : option (Array bool)),
    valid_head h d ->
    (ncols xq <> d \/ ncols xk <> d \/ ncols xv <> d ->
     Attention_call h xq xk xv mask = Err DotShapeError) /\
    (ncols xq = d -> ncols xk = d -> ncols xv = d ->
     valid_mask mask (nrows xq) (nrows xk) ->
     nrows xk <> nrows xv ->
     Attention_call h xq xk xv mask = Err DotShapeError) /\
    (ncols xq = d -> ncols xk = d -> ncols xv = d ->
     forall m, mask = Some m ->
     broadcast_dim (nrows m) (nrows xq) = Err BroadcastError \/
     broadcast_dim (ncols m) (nrows xk) = Err BroadcastError ->
     Attention_call h xq xk xv mask = Err BroadcastError) /\
    (ncols xq = d -> ncols xk = d -> ncols xv = d ->
     nrows xk = nrows xv ->
     forall m, mask = Some m ->
     nrows m = nrows xq \/ nrows m = 1 ->
     ncols m = nrows xk \/ ncols m = 1 ->
     exists out, Attention_call h xq xk xv mask = Ok out /\
                 shape out = (nrows xq, d) /\ wf out).
Proof.
  intros F SF h d xq xk xv mask Hh. split; [|split; [|split]].
  - intros H. unfold Attention_call.
    rewrite (feature_dim_error h xq xk xv mask d Hh H). reflexivity.
  - intros Hq Hk Hv Hm Hne. unfold Attention_call.
    rewrite (Attention_forward_prefix h xq xk xv mask d Hh Hq Hk Hv).
    cbv zeta.
    rewrite (mask_step mask neg_1e9 (nrows xq) (nrows xk) _ Hm).
    cbn [bind]. rewrite softmax_rows. cbn [bind].
    rewrite matmul_shape_err by exact Hne. reflexivity.
  - intros Hq Hk Hv m -> Hb. unfold Attention_call.
    rewrite (Attention_forward_prefix h xq xk xv (Some m) d Hh Hq Hk Hv).
    cbv zeta. unfold where_. cbn [nrows ncols tabulate].
    destruct Hb as [Hb|Hb].
    + rewrite Hb. reflexivity.
    + rewrite Hb.
      destruct (broadcast_dim (nrows m) (nrows xq)) as [r|e] eqn:E;
        [reflexivity|].
      apply broadcast_dim_err in E. subst e. reflexivity.
  - intros Hq Hk Hv Hkv m -> Hmr Hmc. unfold Attention_call.
    rewrite (Attention_forward_prefix h xq xk xv (Some m) d Hh Hq Hk Hv).
    cbv zeta. rewrite (where_broadcast m neg_1e9 _ _ _ Hmr Hmc).
    cbn [bind]. rewrite <- Hkv.
    rewrite softmax_rows. cbn [bind].
    rewrite matmul_tabulate. cbn [bind attention_scores].
    eexists. split; [reflexivity|]. split; [reflexivity|apply wf_tabulate].
Qed.

(** ** Sums, maxima and the softmax of a lane over the reals *)

Section RealLanes.
Local Open Scope R_scope.

Lemma fold_left_Rplus_acc (l : list R) (a : R) :
  fold_left Rplus l a = a + fold_left Rplus l 0.
Proof.
  revert a. induction l as [|x l IH]; intros a; simpl.
  - lra.
  - rewrite (IH (a + x)), (IH (0 + x)). lra.
Qed.

Lemma fsum_nil : fsum (@nil R) = 0.
Proof. reflexivity. Qed.

Lemma fsum_cons (x : R) (l : list R) : fsum (x :: l) = x + fsum l.
Proof.
  unfold fsum. real_ops. simpl. rewrite fold_left_Rplus_acc. lra.
Qed.

Lemma fsum_nonneg (l : list R) :
  (forall x, In x l -> 0 <= x) -> 0 <= fsum l.
Proof.
  induction l as [|x l IH]; intros H.
  - rewrite fsum_nil. lra.
  - rewrite fsum_cons.
    assert (0 <= x) by (apply H; left; reflexivity).
    assert (0 <= fsum l) by (apply IH; intros y Hy; apply H; right; exact Hy).
    lra.
Qed.

Lemma fsum_repeat (c : R) (n : nat) : fsum (repeat c n) = INR n * c.
Proof.
  induction n as [|n IH].
  - simpl. rewrite fsum_nil. lra.
  - cbn [repeat]. rewrite fsum_cons, IH, S_INR. lra.
Qed.

Lemma fold_Rmax_upper (xs : list R) (x : R) :
  x <= fold_left Rmax xs x /\
  forall y, In y xs -> y <= fold_left Rmax xs x.
Proof.
  revert x. induction xs as [|z xs IH]; intros x; simpl.
  - split; [lra | intros y []].
  - destruct (IH (Rmax x z)) as [H1 H2].
    pose proof (Rbasic_fun.Rmax_l x z). pose proof (Rbasic_fun.Rmax_r x z).
    split; [lra|]. intros y [<-|Hy]; [lra | apply H2; exact Hy].
Qed.

Lemma fold_Rmax_member (xs : list R) (x : R) :
  In (fold_left Rmax xs x) (x :: xs).
Proof.
  revert x. induction xs as [|z xs IH]; intros x; simpl.
  - left. reflexivity.
  - destruct (IH (Rmax x z)) as [H|H].
    + destruct (Rle_dec x z) as [Hle|Hgt].
      * rewrite (Rmax_right x z Hle) in *. right. left. exact H.
      * rewrite (Rmax_left x z) in * by lra. left. exact H.
    + right. right. exact H.
Qed.

Lemma fold_Rmax_is_max (xs : list R) (x : R) :
  is_max (fold_left Rmax xs x) (x :: xs).
Proof.
  split; [apply fold_Rmax_member|].
  destruct (fold_Rmax_upper xs x) as [H1 H2].
  intros y [<-|Hy]; [exact H1 | apply H2; exact Hy].
Qed.

Lemma is_max_unique (l : list R) (M N : R) :
  is_max M l -> is_max N l -> M = N.
Proof.
  intros [HM1 HM2] [HN1 HN2].
  pose proof (HM2 N HN1). pose proof (HN2 M HM1). lra.
Qed.

Lemma nth_map_in_range (f : R -> R) (l : list R) (j : nat) :
  (j < length l)%nat -> nth j (map f l) 0 = f (nth j l 0).
Proof.
  intros Hj. rewrite (nth_indep _ 0 (f 0)) by (rewrite length_map; exact Hj).
  apply map_nth.
Qed.

(** Entry [j] of the softmax of a lane, with [M] the maximum of the lane. *)
Lemma softmax_lane_nth (lane : list R) (M : R) (j : nat) :
  is_max M lane -> (j < length lane)%nat ->
  nth j (softmax_lane lane) 0 =
  exp (nth j lane 0 - M) / fsum (map (fun y => exp (y - M)) lane).
Proof.
  intros HM Hj. destruct lane as [|x xs]; [simpl in Hj; lia|].
  rewrite (is_max_unique _ _ _ HM (fold_Rmax_is_max xs x)).
  unfold softmax_lane. real_ops.
  rewrite nth_map_in_range by (rewrite length_map; exact Hj).
  rewrite (nth_map_in_range (fun y => exp (y - fold_left Rmax xs x)))
    by exact Hj.
  reflexivity.
Qed.

Lemma exp_terms_pos (lane : list R) (M : R) :
  forall y, In y (map (fun y => exp (y - M)) lane) -> 0 < y.
Proof.
  intros y Hy. apply in_map_iff in Hy. destruct Hy as [z [<- _]].
  apply exp_pos.
Qed.

Lemma exp_total_pos (lane : list R) (M : R) :
  lane <> [] -> 0 < fsum (map (fun y => exp (y - M)) lane).
Proof.
  intros Hne. destruct lane as [|x xs]; [contradiction|].
  cbn [map]. rewrite fsum_cons.
  pose proof (exp_pos (x - M)).
  assert (0 <= fsum (map (fun y => exp (y - M)) xs)).
  { apply fsum_nonneg. intros y Hy. apply Rlt_le.
    apply (exp_terms_pos xs M). exact Hy. }
  lra.
Qed.

(** The softmax of a lane of equal scores is uniform. *)
Lemma softmax_lane_repeat (c : R) (n j : nat) :
  (j < n)%nat -> nth j (softmax_lane (repeat c n)) 0 = 1 / INR n.
Proof.
  intros Hj.
  assert (HM : is_max c (repeat c n)).
  { split.
    - destruct n; [lia|]. left. reflexivity.
    - intros x Hx. apply repeat_spec in Hx. lra. }
  rewrite (softmax_lane_nth _ c j HM) by (rewrite repeat_length; exact Hj).
  rewrite nth_repeat_lt by exact Hj.
  replace (map (fun y => exp (y - c)) (repeat c n)) with (repeat 1 n).
  - rewrite fsum_repeat. replace (c - c) with 0 by lra. rewrite exp_0.
    f_equal. lra.
  - rewrite map_repeat. replace (c - c) with 0 by lra. rewrite exp_0.
    reflexivity.
Qed.

Lemma exp_le_mono (x y : R) : x <= y -> exp x <= exp y.
Proof.
  intros [H | ->]; [apply Rlt_le, exp_increasing; exact H | lra].
Qed.
End RealLanes.

(** ** The attention weights, row by row *)

Section WeightRows.
Context {F : Type} {SF : Scalar F}.

(** On valid inputs the weights are the softmax of each row of the
    (masked) scaled similarities, and a masked position holds the
    sentinel. *)
Lemma Attention_forward_rows (h : Attention F) (xq xk xv : Array F)
    (mask : option (Array bool)) (d n_q n_k : nat) :
  valid_head h d ->
  shape xq = (n_q, d) -> shape xk = (n_k, d) -> shape xv = (n_k, d) ->
  valid_mask mask n_q n_k ->
  exists fw : Forward F,
    Attention_forward h xq xk xv mask = Ok fw /\
    shape (attention_percents fw) = (n_q, n_k) /\
    shape (scaled_sims fw) = (n_q, n_k) /\
    (forall i, i < n_q ->
       row (attention_percents fw) i = softmax_lane (row (scaled_sims fw) i) /\
       length (row (scaled_sims fw) i) = n_k) /\
    (forall i j, i < n_q -> j < n_k ->
       get f0 (attention_percents fw) i j =
         nth j (row (attention_percents fw) i) f0 /\
       get f0 (scaled_sims fw) i j = nth j (row (scaled_sims fw) i) f0 /\
       get f0 (scaled_sims fw) i j =
         ref_masked (W_q h) (W_k h) d xq xk mask i j).
Proof.
  intros Hh Hq Hk Hv Hm.
  eexists. split;
    [apply (Attention_forward_ok h xq xk xv mask d n_q n_k); assumption|].
  cbn [attention_percents scaled_sims].
  split; [reflexivity|]. split; [reflexivity|]. split.
  - intros i Hi. rewrite !row_tabulate by exact Hi. split.
    + unfold ref_weights.
      set (lane := map (ref_masked (W_q h) (W_k h) d xq xk mask i)
                     (seq 0 n_k)).
      transitivity (map (fun j => nth j (softmax_lane lane) f0)
                      (seq 0 (length (softmax_lane lane)))).
      * rewrite softmax_lane_length. subst lane.
        rewrite length_map, length_seq. reflexivity.
      * symmetry. apply list_as_map_nth.
    + rewrite length_map, length_seq. reflexivity.
  - intros i j Hi Hj. repeat split.
    apply get_tabulate; assumption.
Qed.
End WeightRows.

(** ** Properties of the weights over the reals *)

Section RealWeights.
Local Open Scope R_scope.

(** A fully masked row gets the uniform distribution. *)
Lemma fully_masked_row_uniform (h : Attention R) (xq xk xv : Array R)
    (m : Array bool) (d n_q n_k i : nat) :
  valid_head h d ->
  shape xq = (n_q, d) -> shape xk = (n_k, d) -> shape xv = (n_k, d) ->
  shape m = (n_q, n_k) ->
  (i < n_q)%nat ->
  (forall j, (j < n_k)%nat -> get false m i j = true) ->
  exists fw : Forward R,
    Attention_forward h xq xk xv (Some m) = Ok fw /\
    forall j, (j < n_k)%nat ->
      get 0 (attention_percents fw) i j = 1 / INR n_k.
Proof.
  intros Hh Hq Hk Hv Hm Hi Hrow.
  destruct (Attention_forward_rows h xq xk xv (Some m) d n_q n_k
              Hh Hq Hk Hv Hm) as (fw & Hfw & _ & _ & Hrows & Hget).
  real_ops. exists fw. split; [exact Hfw|]. intros j Hj.
  destruct (Hrows i Hi) as [HP Hlen].
  destruct (Hget i j Hi Hj) as (-> & _ & _).
  rewrite HP.
  replace (row (scaled_sims fw) i) with (repeat (-1000000000) n_k).
  - apply softmax_lane_repeat. exact Hj.
  - apply (nth_ext _ _ 0 0).
    + rewrite repeat_length, Hlen. reflexivity.
    + intros t Ht. rewrite repeat_length in Ht.
      rewrite nth_repeat_lt by exact Ht.
      destruct (Hget i t Hi Ht) as (_ & E1 & E2).
      rewrite <- E1, E2. unfold ref_masked.
      rewrite (Hrow t Ht). reflexivity.
Qed.
End RealWeights.

Section RealClaims.
Local Open Scope R_scope.

(** C2 as stated fails on a fully masked row: the single weight of the
    row is 1. *)
Lemma fully_masked_weight_not_small :
  exists fw : Forward R,
    Attention_forward unit_head one_token one_token one_token
      (Some mask_all_true_1x1) = Ok fw /\
    get false mask_all_true_1x1 0 0 = true /\
    get 0 (attention_percents fw) 0 0 = 1 /\
    ~ get 0 (attention_percents fw) 0 0 < 1 / 1000000.
Proof.
  destruct (fully_masked_row_uniform unit_head one_token one_token one_token
              mask_all_true_1x1 1 1 1 0) as (fw & Hfw & Hu).
  - repeat split.
  - reflexivity.
  - reflexivity.
  - reflexivity.
  - reflexivity.
  - lia.
  - intros j Hj. assert (j = 0%nat) by lia. subst j. reflexivity.
  - exists fw. split; [exact Hfw|]. split; [reflexivity|].
    assert (E : get 0 (attention_percents fw) 0 0 = 1).
    { rewrite (Hu 0%nat) by lia. simpl. lra. }
    split; [exact E|]. rewrite E. lra.
Qed.

(** C7.  When row [i] of the mask is true at every key position, the
    forward pass succeeds and the weights of row [i] are all equal to
    [1 / n_k]: the uniform distribution over the key positions.  This
    holds for [Attention] and, with the token encodings in the three
    places, for [MaskedSelfAttention]. *)
Theorem fully_masked_row_is_uniform :
  forall (d n_q n_k : nat) (xq xk xv : Array R) (m : Array bool) (i : nat),
    shape xq = (n_q, d) -> shape xk = (n_k, d) -> shape xv = (n_k, d) ->
    shape m = (n_q, n_k) ->
    (i < n_q)%nat ->
    (forall j, (j < n_k)%nat -> get false m i j = true) ->
    (forall h : Attention R,
        valid_head h d ->
        exists fw : Forward R,
          Attention_forward h xq xk xv (Some m) = Ok fw /\
          forall j, (j < n_k)%nat ->
            get 0 (attention_percents fw) i j = 1 / INR n_k) /\
    (forall s : MaskedSelfAttention R,
        valid_head (as_Attention s) d -> xk = xq -> xv = xq ->
        exists fw : Forward R,
          MaskedSelfAttention_forward s xq (Some m) = Ok fw /\
          forall j, (j < n_k)%nat ->
            get 0 (attention_percents fw) i j = 1 / INR n_k).
Proof.
  intros d n_q n_k xq xk xv m i Hq Hk Hv Hm Hi Hrow. split.
  - intros h Hh.
    apply (fully_masked_row_uniform h xq xk xv m d n_q n_k i); assumption.
  - intros s Hh -> ->. rewrite MaskedSelfAttention_forward_as_Attention.
    apply (fully_masked_row_uniform (as_Attention s) xq xq xq m d n_q n_k i);
      assumption.
Qed.

Lemma fully_masked_row_is_uniform_witness :
  (exists fw : Forward R,
     Attention_forward unit_head two_tokens two_tokens two_tokens
       (Some mask_2x2_first_row) = Ok fw /\
     forall j, (j < 2)%nat ->
       get 0 (attention_percents fw) 0 j = 1 / INR 2) /\
  (exists fw : Forward R,
     MaskedSelfAttention_forward skew_head two_tokens
       (Some mask_2x2_first_row) = Ok fw /\
     forall j, (j < 2)%nat ->
       get 0 (attention_percents fw) 0 j = 1 / INR 2).
Proof.
  assert (Hrow : forall j, (j < 2)%nat ->
                   get false mask_2x2_first_row 0 j = true).
  { intros j Hj. destruct j as [|[|j]]; [reflexivity | reflexivity | lia]. }
  destruct (fully_masked_row_is_uniform 1 2 2 two_tokens two_tokens
              two_tokens mask_2x2_first_row 0
              eq_refl eq_refl eq_refl eq_refl (Nat.lt_0_succ 1) Hrow)
    as [HA HM].
  split.
  - apply (HA unit_head). repeat split.
  - apply (HM skew_head); repeat split.
Defined.
Lemma causal_mask_above_diagonal (n i j : nat) :
  (i < j)%nat -> (j < n)%nat -> get false (causal_mask n) i j = true.
Proof.
  intros Hij Hj. unfold causal_mask.
  rewrite get_tabulate by lia. apply Nat.ltb_lt. exact Hij.
Qed.

(** C6 as stated fails: with query and key weights of opposite signs and
    large token values the diagonal score lies below the sentinel, and the
    masked position [(0, 1)] receives more than half of the weight of its
    row. *)
Lemma causal_masked_weight_not_zero :
  exists fw : Forward R,
    MaskedSelfAttention_forward skew_head big_tokens
      (Some (causal_mask 2)) = Ok fw /\
    get false (causal_mask 2) 0 1 = true /\
    1 / 2 < get 0 (attention_percents fw) 0 1 /\
    get 0 (attention_percents fw) 0 1 <> 0.
Proof.
  rewrite MaskedSelfAttention_forward_as_Attention.
  destruct (Attention_forward_rows (as_Attention skew_head) big_tokens
              big_tokens big_tokens (Some (causal_mask 2)) 1 2 2)
    as (fw & Hfw & _ & _ & Hrows & Hget);
    [repeat split | reflexivity | reflexivity | reflexivity | reflexivity |].
  real_ops. exists fw. split; [exact Hfw|]. split; [reflexivity|].
  destruct (Hrows 0%nat) as [HP Hlen]; [lia|].
  destruct (Hget 0%nat 1%nat) as (-> & _ & _); [lia | lia |].
  rewrite HP.
  assert (Hlane : row (scaled_sims fw) 0 = [-1600000000; -1000000000]).
  { apply (nth_ext _ _ 0 0); [rewrite Hlen; reflexivity|].
    intros t Ht. rewrite Hlen in Ht.
    destruct (Hget 0%nat t) as (_ & E1 & E2); [lia | lia |].
    rewrite <- E1, E2.
    destruct t as [|[|t]]; [| |lia].
    - eval_score. lra.
    - reflexivity. }
  rewrite Hlane.
  assert (HM : is_max (-1000000000) [-1600000000; -1000000000]).
  { split; [right; left; reflexivity|].
    intros y [<-|[<-|[]]]; lra. }
  rewrite (softmax_lane_nth _ _ 1 HM) by (simpl; lia).
  cbn [nth map]. rewrite !fsum_cons, fsum_nil.
  replace (-1000000000 - -1000000000) with 0 by lra. rewrite exp_0.
  assert (Hsmall : exp (-1600000000 - -1000000000) < 1).
  { rewrite <- exp_0. apply exp_increasing. lra. }
  pose proof (exp_pos (-1600000000 - -1000000000)) as Hpos.
  assert (Hhalf : 1 / 2 < 1 / (exp (-1600000000 - -1000000000) + (1 + 0))).
  { unfold Rdiv. rewrite !Rmult_1_l. apply Rinv_lt_contravar; nra. }
  split; [exact Hhalf | lra].
Qed.

(** Over the reals the max-subtracted quotient has the value of the plain
    quotient [exp x / sum (exp x)]: the two forms differ in how they are
    evaluated, not in what they denote. *)
Lemma max_subtraction_keeps_value (lane : list R) (M x : R) :
  lane <> [] ->
  exp (x - M) / fsum (map (fun y => exp (y - M)) lane) =
  exp x / fsum (map exp lane).
Proof.
  intros Hne.
  assert (Hsum : fsum (map (fun y => exp (y - M)) lane) =
                 fsum (map exp lane) * exp (- M)).
  { clear Hne. induction lane as [|y l IH].
    - simpl. rewrite !fsum_nil. lra.
    - cbn [map]. rewrite !fsum_cons, IH.
      replace (y - M) with (y + - M) by lra. rewrite exp_plus. lra. }
  rewrite Hsum. replace (x - M) with (x + - M) by lra. rewrite exp_plus.
  pose proof (exp_pos (- M)).
  assert (0 < fsum (map exp lane)).
  { replace (map exp lane) with (map (fun y => exp (y - 0)) lane).
    - apply exp_total_pos. exact Hne.
    - apply map_ext. intros y. f_equal. lra. }
  field. split; lra.
Qed.
End RealClaims.

(** ** The remaining claims on concrete inputs *)

Lemma unit_head_valid : valid_head unit_head 1.
Proof. repeat split. Qed.

Lemma attention_call_shape_errors_witness :
  Attention_call unit_head wide_tokens two_tokens two_tokens None =
    Err DotShapeError /\
  Attention_call unit_head two_tokens two_tokens one_token None =
    Err DotShapeError /\
  Attention_call unit_head two_tokens two_tokens two_tokens
    (Some (causal_mask 3)) = Err BroadcastError /\
  exists out,
    Attention_call unit_head two_tokens two_tokens two_tokens
      (Some mask_row_1x2) = Ok out /\
    shape out = (nrows two_tokens, 1) /\ wf out.
Proof.
  split; [|split; [|split]].
  - destruct (attention_call_shape_errors R R_Scalar unit_head 1 wide_tokens
                two_tokens two_tokens None unit_head_valid) as (H & _).
    apply H. left. discriminate.
  - destruct (attention_call_shape_errors R R_Scalar unit_head 1 two_tokens
                two_tokens one_token None unit_head_valid) as (_ & H & _).
    apply H; [reflexivity | reflexivity | reflexivity | exact I |].
    discriminate.
  - destruct (attention_call_shape_errors R R_Scalar unit_head 1 two_tokens
                two_tokens two_tokens (Some (causal_mask 3)) unit_head_valid)
      as (_ & _ & H & _).
    apply (H eq_refl eq_refl eq_refl (causal_mask 3) eq_refl).
    left. reflexivity.
  - destruct (attention_call_shape_errors R R_Scalar unit_head 1 two_tokens
                two_tokens two_tokens (Some mask_row_1x2) unit_head_valid)
      as (_ & _ & _ & H).
    apply (H eq_refl eq_refl eq_refl eq_refl mask_row_1x2 eq_refl).
    + right. reflexivity.
    + left. reflexivity.
Defined.

(** C4 as stated fails: a mask of shape [(1, 2)] on two queries and two
    keys is not of shape [(2, 2)], and the call returns an array. *)
Lemma broadcast_mask_accepted :
  shape mask_row_1x2 <> (nrows two_tokens, nrows two_tokens) /\
  exists out,
    Attention_call unit_head two_tokens two_tokens two_tokens
      (Some mask_row_1x2) = Ok out.
Proof.
  split; [discriminate|].
  unfold Attention_call.
  rewrite (Attention_forward_prefix unit_head two_tokens two_tokens
             two_tokens (Some mask_row_1x2) 1 unit_head_valid
             eq_refl eq_refl eq_refl).
  cbv zeta.
  rewrite (where_broadcast mask_row_1x2 neg_1e9 _ _ _
             (or_intror eq_refl) (or_introl eq_refl)).
  cbn [bind]. rewrite softmax_rows. cbn [bind].
  rewrite matmul_tabulate. cbn [bind]. eexists. reflexivity.
Qed.

Lemma multi_head_output_is_concatenation_witness :
  exists (o : Array R) (os : list (Array R)) (out : Array R),
    Forall2 (fun h o' =>
               Attention_call h two_tokens two_tokens two_tokens None = Ok o')
      (heads two_heads) (o :: os) /\
    MultiHeadAttention_call two_heads two_tokens two_tokens two_tokens =
      Ok out /\
    out = hstack o os /\
    shape out = (2, length (heads two_heads) * 1) /\
    wf out /\
    forall t i c, t < length (heads two_heads) -> i < 2 -> c < 1 ->
      get f0 out i (t * 1 + c) = get f0 (nth t (o :: os) o) i c.
Proof.
  apply (multi_head_output_is_concatenation R R_Scalar two_heads two_tokens
           two_tokens two_tokens 1 2 2).
  - discriminate.
  - reflexivity.
  - repeat constructor.
  - reflexivity.
  - reflexivity.
  - reflexivity.
Defined.

Lemma constructors_share_one_key_witness :
  let w := drawn_weights demo_fold_in demo_sample 2 demo_rngs in
  Attention_init demo_fold_in demo_sample 2 0 1 demo_rngs =
    Ok (mkAttention w w w 0 1 2, advance demo_rngs) /\
  exists fw : Forward R,
    Attention_forward (mkAttention w w w 0 1 2) wide_tokens wide_tokens
      wide_tokens None = Ok fw /\
    q_proj fw = k_proj fw /\ k_proj fw = v_proj fw.
Proof.
  intros w.
  destruct (constructors_share_one_key R R_Scalar nat demo_fold_in
              demo_sample 2 0 1 demo_rngs Z.le_0_2)
    as (Hinit & _ & _ & Hproj).
  split; [exact Hinit|].
  assert (Hfw := Attention_forward_ok (mkAttention w w w 0 1 2) wide_tokens
                   wide_tokens wide_tokens None 2 2 2
                   (conj eq_refl (conj eq_refl (conj eq_refl
                      (conj eq_refl (conj eq_refl eq_refl)))))
                   eq_refl eq_refl eq_refl I).
  eexists. split; [exact Hfw|].
  apply (Hproj wide_tokens None). left. exact Hfw.
Defined.

(** * Further properties of the forward pass *)

(** ** What the output depends on *)

Section Dependence.
Context {F : Type} {SF : Scalar F}.

Lemma ref_weights_ext (Wq Wk Wq' Wk' : Array F) (d : nat)
    (xq xk xq' xk' : Array F) (mask mask' : option (Array bool))
    (n_k i : nat) :
  (forall j, j < n_k ->
     ref_masked Wq Wk d xq xk mask i j =
     ref_masked Wq' Wk' d xq' xk' mask' i j) ->
  forall j,
    ref_weights Wq Wk d xq xk mask n_k i j =
    ref_weights Wq' Wk' d xq' xk' mask' n_k i j.
Proof.
  intros H j. unfold ref_weights. f_equal. f_equal.
  apply map_ext_in. intros t Ht. apply in_seq in Ht. apply H. lia.
Qed.

Lemma ref_output_ext (Wq Wk Wv Wq' Wk' Wv' : Array F) (d : nat)
    (xq xk xv xq' xk' xv' : Array F) (mask mask' : option (Array bool))
    (n_k i c : nat) :
  (forall j, j < n_k ->
     ref_masked Wq Wk d xq xk mask i j =
     ref_masked Wq' Wk' d xq' xk' mask' i j) ->
  (forall j, j < n_k -> ref_V Wv d xv j c = ref_V Wv' d xv' j c) ->
  ref_output Wq Wk Wv d xq xk xv mask n_k i c =
  ref_output Wq' Wk' Wv' d xq' xk' xv' mask' n_k i c.
Proof.
  intros Hm Hv. unfold ref_output. apply big_sum_ext. intros j Hj.
  rewrite (ref_weights_ext Wq Wk Wq' Wk' d xq xk xq' xk' mask mask' n_k i Hm).
  rewrite (Hv j Hj). reflexivity.
Qed.

Lemma ref_scaled_rows (Wq Wk : Array F) (d : nat) (xq xk xq' xk' : Array F)
    (i j : nat) :
  (forall t, t < d -> get f0 xq i t = get f0 xq' i t) ->
  (forall t, t < d -> get f0 xk j t = get f0 xk' j t) ->
  ref_scaled Wq Wk d xq xk i j = ref_scaled Wq Wk d xq' xk' i j.
Proof.
  intros Hq Hk. unfold ref_scaled, ref_S. f_equal.
  apply big_sum_ext. intros c Hc. f_equal.
  - unfold ref_Q. apply big_sum_ext. intros t Ht. rewrite (Hq t Ht).
    reflexivity.
  - unfold ref_K. apply big_sum_ext. intros t Ht. rewrite (Hk t Ht).
    reflexivity.
Qed.
End Dependence.

(** X1.  Row [i] of the output depends on the query source only through
    its row [i]: two query sources of the same shape that agree on row [i]
    give, with the same keys, values and mask, outputs that agree on row
    [i]. *)
Theorem output_row_depends_on_its_query_row :
  forall (F : Type) (SF : Scalar F) (h : Attention F)
         (xq xq' xk xv : Array F) (mask : option (Array bool))
         (d n_q n_k i : nat),
    valid_head h d ->
    shape xq = (n_q, d) -> shape xq' = (n_q, d) ->
    shape xk = (n_k, d) -> shape xv = (n_k, d) ->
    valid_mask mask n_q n_k ->
    i < n_q ->
    (forall t, t < d -> get f0 xq i t = get f0 xq' i t) ->
    exists out out' : Array F,
      Attention_call h xq xk xv mask = Ok out /\
      Attention_call h xq' xk xv mask = Ok out' /\
      forall c, c < d -> get f0 out i c = get f0 out' i c.
Proof.
  intros F SF h xq xq' xk xv mask d n_q n_k i Hh Hq Hq' Hk Hv Hm Hi Hrow.
  eexists. eexists.
  split; [apply (Attention_call_ok h xq xk xv mask d n_q n_k); assumption|].
  split; [apply (Attention_call_ok h xq' xk xv mask d n_q n_k); assumption|].
  intros c Hc. unfold attention_reference.
  rewrite !get_tabulate by assumption.
  apply ref_output_ext; [|reflexivity].
  intros j Hj. unfold ref_masked.
  rewrite (ref_scaled_rows (W_q h) (W_k h) d xq xk xq' xk i j Hrow)
    by reflexivity.
  reflexivity.
Qed.

Lemma output_row_depends_on_its_query_row_witness :
  exists out out' : Array R,
    Attention_call unit_head two_tokens two_tokens two_tokens None = Ok out /\
    Attention_call unit_head two_tokens_alt two_tokens two_tokens None =
      Ok out' /\
    forall c, c < 1 -> get f0 out 0 c = get f0 out' 0 c.
Proof.
  apply (output_row_depends_on_its_query_row R R_Scalar unit_head two_tokens
           two_tokens_alt two_tokens two_tokens None 1 2 2 0);
    [repeat split | reflexivity | reflexivity | reflexivity | reflexivity
    | exact I | lia |].
  intros t Ht. destruct t as [|t]; [reflexivity | lia].
Defined.

(** X2.  Causality of the weights.  On a self-attention call with the
    causal mask, row [i] of the attention weights depends only on the
    tokens at positions [0 .. i]: two token matrices of the same shape that
    agree on these rows give the same row [i] of weights. *)
Theorem causal_weights_ignore_later_tokens :
  forall (F : Type) (SF : Scalar F) (s : MaskedSelfAttention F)
         (x x' : Array F) (d n i : nat),
    valid_head (as_Attention s) d ->
    shape x = (n, d) -> shape x' = (n, d) ->
    i < n ->
    (forall r t, r <= i -> t < d -> get f0 x r t = get f0 x' r t) ->
    exists fw fw' : Forward F,
      MaskedSelfAttention_forward s x (Some (causal_mask n)) = Ok fw /\
      MaskedSelfAttention_forward s x' (Some (causal_mask n)) = Ok fw' /\
      forall j, j < n ->
        get f0 (attention_percents fw) i j =
        get f0 (attention_percents fw') i j.
Proof.
  intros F SF s x x' d n i Hh Hx Hx' Hi Hrows.
  rewrite !MaskedSelfAttention_forward_as_Attention.
  eexists. eexists.
  split; [apply (Attention_forward_ok (as_Attention s) x x x
                   (Some (causal_mask n)) d n n Hh Hx Hx Hx eq_refl)|].
  split; [apply (Attention_forward_ok (as_Attention s) x' x' x'
                   (Some (causal_mask n)) d n n Hh Hx' Hx' Hx' eq_refl)|].
  intros j Hj. cbn [attention_percents].
  rewrite !get_tabulate by assumption.
  apply ref_weights_ext. intros u Hu. unfold ref_masked, causal_mask.
  rewrite get_tabulate by assumption.
  destruct (i <? u) eqn:E; [reflexivity|].
  apply Nat.ltb_ge in E.
  apply ref_scaled_rows; intros t Ht; apply Hrows; assumption || lia.
Qed.

Lemma causal_weights_ignore_later_tokens_witness :
  exists fw fw' : Forward R,
    MaskedSelfAttention_forward skew_head two_tokens
      (Some (causal_mask 2)) = Ok fw /\
    MaskedSelfAttention_forward skew_head two_tokens_alt
      (Some (causal_mask 2)) = Ok fw' /\
    forall j, j < 2 ->
      get f0 (attention_percents fw) 0 j =
      get f0 (attention_percents fw') 0 j.
Proof.
  apply (causal_weights_ignore_later_tokens R R_Scalar skew_head two_tokens
           two_tokens_alt 1 2 0);
    [repeat split | reflexivity | reflexivity | lia |].
  intros r t Hr Ht. assert (r = 0) by lia. assert (t = 0) by lia.
  subst. reflexivity.
Defined.

(** X3.  A mask of the shape of the scores with no true entry changes
    nothing: the call returns what it returns without a mask. *)
Theorem all_false_mask_is_no_mask :
  forall (F : Type) (SF : Scalar F) (h : Attention F)
         (xq xk xv : Array F) (m : Array bool) (d n_q n_k : nat),
    valid_head h d ->
    shape xq = (n_q, d) -> shape xk = (n_k, d) -> shape xv = (n_k, d) ->
    shape m = (n_q, n_k) ->
    (forall i j, i < n_q -> j < n_k -> get false m i j = false) ->
    Attention_call h xq xk xv (Some m) = Attention_call h xq xk xv None.
Proof.
  intros F SF h xq xk xv m d n_q n_k Hh Hq Hk Hv Hm Hfalse.
  rewrite (Attention_call_ok h xq xk xv (Some m) d n_q n_k Hh Hq Hk Hv Hm).
  rewrite (Attention_call_ok h xq xk xv None d n_q n_k Hh Hq Hk Hv I).
  f_equal. unfold attention_reference. apply tabulate_ext.
  intros i c Hi Hc. apply ref_output_ext; [|reflexivity].
  intros j Hj. unfold ref_masked. rewrite (Hfalse i j Hi Hj). reflexivity.
Qed.

Lemma all_false_mask_is_no_mask_witness :
  Attention_call unit_head two_tokens two_tokens two_tokens
    (Some mask_none_2x2) =
  Attention_call unit_head two_tokens two_tokens two_tokens None.
Proof.
  apply (all_false_mask_is_no_mask R R_Scalar unit_head two_tokens two_tokens
           two_tokens mask_none_2x2 1 2 2);
    [repeat split | reflexivity | reflexivity | reflexivity | reflexivity |].
  intros i j Hi Hj.
  destruct i as [|[|i]]; destruct j as [|[|j]]; try lia; reflexivity.
Defined.

Section BroadcastFacts.
Context {F : Type} {SF : Scalar F}.

Lemma where_broadcast_to (m : Array bool) (x : F) (r c : nat)
    (f : nat -> nat -> F) :
  nrows m = r \/ nrows m = 1 -> ncols m = c \/ ncols m = 1 ->
  where_ m x (tabulate r c f) =
  where_ (broadcast_to false m r c) x (tabulate r c f).
Proof.
  intros Hr Hc. rewrite (where_broadcast m x r c f Hr Hc).
  rewrite (where_same_shape (broadcast_to false m r c) x r c f eq_refl).
  f_equal. apply tabulate_ext. intros i j Hi Hj.
  unfold broadcast_to. rewrite get_tabulate by assumption. reflexivity.
Qed.
End BroadcastFacts.

(** X4.  A mask with a dimension of extent 1 is stretched along it: when
    each dimension of the mask is the matching one of [(n_q, n_k)] or 1,
    the call returns what it returns on the mask written out in full
    (one row repeated for every query, one column for every key). *)
Theorem broadcast_mask_is_expanded_mask :
  forall (F : Type) (SF : Scalar F) (h : Attention F)
         (xq xk xv : Array F) (m : Array bool) (d n_q n_k : nat),
    valid_head h d ->
    shape xq = (n_q, d) -> shape xk = (n_k, d) -> ncols xv = d ->
    nrows m = n_q \/ nrows m = 1 ->
    ncols m = n_k \/ ncols m = 1 ->
    Attention_call h xq xk xv (Some m) =
    Attention_call h xq xk xv (Some (broadcast_to false m n_q n_k)).
Proof.
  intros F SF h xq xk xv m d n_q n_k Hh Hq Hk Hv Hr Hc.
  unfold shape in Hq, Hk. injection Hq as Hq1 Hq2. injection Hk as Hk1 Hk2.
  unfold Attention_call.
  rewrite (Attention_forward_prefix h xq xk xv (Some m) d Hh Hq2 Hk2 Hv).
  rewrite (Attention_forward_prefix h xq xk xv
             (Some (broadcast_to false m n_q n_k)) d Hh Hq2 Hk2 Hv).
  cbv zeta. rewrite Hq1, Hk1.
  rewrite (where_broadcast_to m neg_1e9 n_q n_k _ Hr Hc). reflexivity.
Qed.

Lemma broadcast_mask_is_expanded_mask_witness :
  Attention_call unit_head two_tokens two_tokens two_tokens
    (Some mask_row_1x2) =
  Attention_call unit_head two_tokens two_tokens two_tokens
    (Some (broadcast_to false mask_row_1x2 2 2)).
Proof.
  apply (broadcast_mask_is_expanded_mask R R_Scalar unit_head two_tokens
           two_tokens two_tokens mask_row_1x2 1 2 2);
    [repeat split | reflexivity | reflexivity | reflexivity
    | right; reflexivity | left; reflexivity].
Defined.

(** X5.  Empty sequences.  With no key position (key and value sources of
    shape [(0, d)]) the call returns the all-zero array of shape
    [(n_q, d)]; with no query position it returns the array of shape
    [(0, d)] with no row. *)
Theorem empty_sequences :
  forall (F : Type) (SF : Scalar F) (h : Attention F)
         (xq xk xv : Array F) (mask : option (Array bool))
         (d n_q n_k : nat),
    valid_head h d ->
    shape xq = (n_q, d) -> shape xk = (n_k, d) -> shape xv = (n_k, d) ->
    valid_mask mask n_q n_k ->
    (n_k = 0 ->
     Attention_call h xq xk xv mask = Ok (tabulate n_q d (fun _ _ => f0))) /\
    (n_q = 0 ->
     Attention_call h xq xk xv mask = Ok (mkArray 0 d [])).
Proof.
  intros F SF h xq xk xv mask d n_q n_k Hh Hq Hk Hv Hm.
  rewrite (Attention_call_ok h xq xk xv mask d n_q n_k Hh Hq Hk Hv Hm).
  split; intros ->; reflexivity.
Qed.

Lemma empty_sequences_witness :
  Attention_call unit_head one_token no_tokens no_tokens None =
    Ok (tabulate 1 1 (fun _ _ => f0)) /\
  Attention_call unit_head no_tokens two_tokens two_tokens None =
    Ok (mkArray 0 1 []).
Proof.
  split.
  - apply (empty_sequences R R_Scalar unit_head one_token no_tokens no_tokens
             None 1 1 0);
      [repeat split | reflexivity | reflexivity | reflexivity | exact I
      | reflexivity].
  - apply (empty_sequences R R_Scalar unit_head no_tokens two_tokens
             two_tokens None 1 0 2);
      [repeat split | reflexivity | reflexivity | reflexivity | exact I
      | reflexivity].
Defined.

(** X6.  What a returned array guarantees.  Whenever the call returns an
    array, with or without a mask and whatever the axes, the feature
    dimension of each input equalled the row count of the weight it is
    projected by, and the array is well formed with as many columns as
    [W_v]. *)
Theorem returned_output_shape :
  forall (F : Type) (SF : Scalar F) (h : Attention F)
         (xq xk xv : Array F) (mask : option (Array bool)) (out : Array F),
    Attention_call h xq xk xv mask = Ok out ->
    ncols xq = nrows (W_q h) /\ ncols xk = nrows (W_k h) /\
    ncols xv = nrows (W_v h) /\
    wf out /\ ncols out = ncols (W_v h).
Proof.
  intros F SF h xq xk xv mask out. unfold Attention_call.
  destruct (Attention_forward h xq xk xv mask) as [fw|] eqn:E;
    [|discriminate].
  cbn [bind]. intros H. injection H as <-.
  apply Attention_forward_inv in E.
  destruct E as (Hq & Hk & Hv & _ & Ho).
  apply matmul_wf in Hq. apply matmul_wf in Hk.
  apply matmul_wf in Hv. apply matmul_wf in Ho.
  destruct Hq as (_ & _ & Hq). destruct Hk as (_ & _ & Hk).
  destruct Hv as (_ & Hvs & Hv). destruct Ho as (Hwf & Hos & _).
  unfold shape in *. injection Hvs as _ Hvc. injection Hos as _ Hoc.
  repeat split; try assumption; try apply Hwf. congruence.
Qed.

Lemma returned_output_shape_witness :
  ncols two_tokens = nrows (W_q unit_head) /\
  ncols two_tokens = nrows (W_k unit_head) /\
  ncols two_tokens = nrows (W_v unit_head) /\
  wf (attention_reference (W_q unit_head) (W_k unit_head) (W_v unit_head) 1
        two_tokens two_tokens two_tokens None 2 2) /\
  ncols (attention_reference (W_q unit_head) (W_k unit_head)
           (W_v unit_head) 1 two_tokens two_tokens two_tokens None 2 2) =
  ncols (W_v unit_head).
Proof.
  apply (returned_output_shape R R_Scalar unit_head two_tokens two_tokens
           two_tokens None).
  apply (Attention_call_ok unit_head two_tokens two_tokens two_tokens None
           1 2 2); [repeat split | reflexivity | reflexivity | reflexivity
                   | exact I].
Defined.

(** ** Constructors and callers *)

(** X7.  The three single-head classes are the same computation.  Built
    from the same arguments on the same stream, [SelfAttention],
    [MaskedSelfAttention] and [Attention] succeed together, leave the
    stream in the same state, and on every token matrix [x] the calls
    [SelfAttention(x)], [MaskedSelfAttention(x, None)] and
    [Attention(x, x, x, None)] return the same result or error. *)
Theorem single_head_classes_agree :
  forall (F : Type) (SF : Scalar F) (key : Type)
         (fold_in : key -> nat -> key)
         (sample : key -> nat -> nat -> nat -> nat -> F)
         (d r c : Z) (rngs rngs' : Rngs key) (sa : SelfAttention F),
    SelfAttention_init fold_in sample d r c rngs = Ok (sa, rngs') ->
    exists (msa : MaskedSelfAttention F) (att : Attention F),
      MaskedSelfAttention_init fold_in sample d r c rngs = Ok (msa, rngs') /\
      Attention_init fold_in sample d r c rngs = Ok (att, rngs') /\
      forall x : Array F,
        SelfAttention_call sa x = MaskedSelfAttention_call msa x None /\
        SelfAttention_call sa x = Attention_call att x x x None.
Proof.
  intros F SF key fold_in sample d r c rngs rngs' sa.
  rewrite SelfAttention_init_eq, MaskedSelfAttention_init_eq,
    Attention_init_eq.
  destruct (d <? 0)%Z; [discriminate|]. cbv zeta.
  intros H. injection H as <- <-.
  eexists. eexists. split; [reflexivity|]. split; [reflexivity|].
  intros x. split; reflexivity.
Qed.

Lemma single_head_classes_agree_witness :
  exists (msa : MaskedSelfAttention R) (att : Attention R),
    MaskedSelfAttention_init demo_fold_in demo_sample 2 0 1 demo_rngs =
      Ok (msa, advance demo_rngs) /\
    Attention_init demo_fold_in demo_sample 2 0 1 demo_rngs =
      Ok (att, advance demo_rngs) /\
    forall x : Array R,
      SelfAttention_call
        (mkSelfAttention (drawn_weights demo_fold_in demo_sample 2 demo_rngs)
           (drawn_weights demo_fold_in demo_sample 2 demo_rngs)
           (drawn_weights demo_fold_in demo_sample 2 demo_rngs) 0 1 2) x =
        MaskedSelfAttention_call msa x None /\
      SelfAttention_call
        (mkSelfAttention (drawn_weights demo_fold_in demo_sample 2 demo_rngs)
           (drawn_weights demo_fold_in demo_sample 2 demo_rngs)
           (drawn_weights demo_fold_in demo_sample 2 demo_rngs) 0 1 2) x =
        Attention_call att x x x None.
Proof.
  apply (single_head_classes_agree R R_Scalar nat demo_fold_in demo_sample
           2 0 1 demo_rngs (advance demo_rngs)).
  reflexivity.
Defined.

Section MultiHeadFacts.
Context {F : Type} {SF : Scalar F}.
Variable key : Type.
Variable fold_in : key -> nat -> key.
Variable sample : key -> nat -> nat -> nat -> nat -> F.

Lemma make_heads_succeeds (n : nat) (d r c : Z) (rngs : Rngs key) :
  (0 <= d)%Z ->
  exists hs, make_heads fold_in sample n d r c rngs =
             Ok (hs, mkRngs (base_key rngs) (count rngs + n)).
Proof.
  intros Hd. apply Z.ltb_ge in Hd.
  revert rngs. induction n as [|n IH]; intros rngs.
  - exists []. simpl. destruct rngs; simpl. rewrite Nat.add_0_r.
    reflexivity.
  - cbn [make_heads]. rewrite Attention_init_eq, Hd. cbv zeta.
    cbn [bind fst snd].
    destruct (IH (advance rngs)) as [hs Hhs]. rewrite Hhs.
    cbn [bind fst snd]. eexists. f_equal. f_equal.
    unfold advance. cbn [base_key count]. f_equal. lia.
Qed.

Lemma make_heads_negative_dim (n : nat) (d r c : Z) (rngs : Rngs key) :
  (d < 0)%Z ->
  make_heads fold_in sample (S n) d r c rngs = Err NegativeDimError.
Proof.
  intros Hd. apply Z.ltb_lt in Hd.
  cbn [make_heads]. rewrite Attention_init_eq, Hd. reflexivity.
Qed.

Lemma drawn_weights_shape (d : nat) (rngs : Rngs key) :
  shape (drawn_weights fold_in sample (Z.of_nat d) rngs) = (d, d).
Proof.
  unfold drawn_weights, shape. cbn [nrows ncols tabulate].
  rewrite Nat2Z.id. reflexivity.
Qed.

Lemma mapM_first_error {A B : Type} (f : A -> result B)
    (l1 l2 : list A) (a : A) (e : error) :
  (forall a', In a' l1 -> exists b, f a' = Ok b) ->
  f a = Err e ->
  mapM f (l1 ++ a :: l2) = Err e.
Proof.
  intros Hok Ha. induction l1 as [|a1 l1 IH]; cbn [app mapM].
  - rewrite Ha. reflexivity.
  - destruct (Hok a1 (or_introl eq_refl)) as [b Hb]. rewrite Hb.
    cbn [bind]. rewrite IH by (intros a' Ha'; apply Hok; right; exact Ha').
    reflexivity.
Qed.
End MultiHeadFacts.

(** X8.  What the constructor of [MultiHeadAttention] returns.  With
    [num_heads <= 0] it returns an instance without heads and leaves the
    stream untouched, whatever [d_model].  With [num_heads >= 1] it fails
    when [d_model] is negative, and otherwise returns [num_heads] heads
    and a stream advanced by [num_heads] draws; head [t] carries the axes
    and [d_model] given and has its three weights drawn from position
    [t] of the stream. *)
Theorem multi_head_constructor :
  forall (F : Type) (SF : Scalar F) (key : Type)
         (fold_in : key -> nat -> key)
         (sample : key -> nat -> nat -> nat -> nat -> F)
         (d r c num_heads : Z) (rngs : Rngs key),
    ((num_heads <= 0)%Z ->
     MultiHeadAttention_init fold_in sample d r c num_heads rngs =
       Ok (mkMultiHeadAttention [] c, rngs)) /\
    ((0 < num_heads)%Z -> (d < 0)%Z ->
     MultiHeadAttention_init fold_in sample d r c num_heads rngs =
       Err NegativeDimError) /\
    ((0 < num_heads)%Z -> (0 <= d)%Z ->
     exists m : MultiHeadAttention F,
       MultiHeadAttention_init fold_in sample d r c num_heads rngs =
         Ok (m, mkRngs (base_key rngs) (count rngs + Z.to_nat num_heads)) /\
       mha_col_dim m = c /\
       length (heads m) = Z.to_nat num_heads /\
       forall t h0, t < Z.to_nat num_heads ->
         nth t (heads m) h0 =
         let w := drawn_weights fold_in sample d
                    (mkRngs (base_key rngs) (count rngs + t)) in
         mkAttention w w w r c d).
Proof.
  intros F SF key fold_in sample d r c num_heads rngs.
  unfold MultiHeadAttention_init. split; [|split].
  - intros Hn. replace (Z.to_nat num_heads) with 0 by lia. reflexivity.
  - intros Hn Hd.
    destruct (Z.to_nat num_heads) as [|n] eqn:E; [lia|].
    rewrite (make_heads_negative_dim key fold_in sample n d r c rngs Hd).
    reflexivity.
  - intros Hn Hd.
    destruct (make_heads_succeeds key fold_in sample (Z.to_nat num_heads)
                d r c rngs Hd) as [hs Hhs].
    rewrite Hhs. cbn [bind fst snd].
    exists (mkMultiHeadAttention hs c). split; [reflexivity|].
    split; [reflexivity|]. cbn [heads].
    apply make_heads_order in Hhs. destruct Hhs as (Hlen & _ & Hnth).
    split; assumption.
Qed.

Lemma multi_head_constructor_witness :
  MultiHeadAttention_init demo_fold_in demo_sample (-1) 0 1 (-3) demo_rngs =
    Ok (mkMultiHeadAttention [] 1, demo_rngs) /\
  MultiHeadAttention_init demo_fold_in demo_sample (-1) 0 1 2 demo_rngs =
    Err NegativeDimError /\
  exists m : MultiHeadAttention R,
    MultiHeadAttention_init demo_fold_in demo_sample 2 0 1 2 demo_rngs =
      Ok (m, mkRngs (base_key demo_rngs) (count demo_rngs + Z.to_nat 2)) /\
    mha_col_dim m = 1%Z /\
    length (heads m) = Z.to_nat 2 /\
    forall t h0, t < Z.to_nat 2 ->
      nth t (heads m) h0 =
      let w := drawn_weights demo_fold_in demo_sample 2
                 (mkRngs (base_key demo_rngs) (count demo_rngs + t)) in
      mkAttention w w w 0 1 2.
Proof.
  split; [|split].
  - destruct (multi_head_constructor R R_Scalar nat demo_fold_in demo_sample
                (-1) 0 1 (-3) demo_rngs) as (H & _).
    apply H. lia.
  - destruct (multi_head_constructor R R_Scalar nat demo_fold_in demo_sample
                (-1) 0 1 2 demo_rngs) as (_ & H & _).
    apply H; lia.
  - destruct (multi_head_constructor R R_Scalar nat demo_fold_in demo_sample
                2 0 1 2 demo_rngs) as (_ & _ & H).
    apply H; lia.
Defined.

(** X9.  A [MultiHeadAttention] built with [num_heads >= 1], width [d]
    and the axes 0 and 1 accepts every input of shapes [(n_q, d)],
    [(n_k, d)], [(n_k, d)]: the call returns an array of shape
    [(n_q, num_heads * d)], and its first [d] columns are the output of
    the single [Attention] built from the same arguments on the same
    stream. *)
Theorem constructed_multi_head_call :
  forall (F : Type) (SF : Scalar F) (key : Type)
         (fold_in : key -> nat -> key)
         (sample : key -> nat -> nat -> nat -> nat -> F)
         (d : nat) (num_heads : Z) (rngs rngs' : Rngs key)
         (m : MultiHeadAttention F) (xq xk xv : Array F) (n_q n_k : nat),
    (0 < num_heads)%Z ->
    MultiHeadAttention_init fold_in sample (Z.of_nat d) 0 1 num_heads rngs =
      Ok (m, rngs') ->
    shape xq = (n_q, d) -> shape xk = (n_k, d) -> shape xv = (n_k, d) ->
    exists (h : Attention F) (o out : Array F),
      Attention_init fold_in sample (Z.of_nat d) 0 1 rngs =
        Ok (h, advance rngs) /\
      Attention_call h xq xk xv None = Ok o /\
      MultiHeadAttention_call m xq xk xv = Ok out /\
      shape out = (n_q, Z.to_nat num_heads * d) /\
      forall i c, i < n_q -> c < d -> get f0 out i c = get f0 o i c.
Proof.
  intros F SF key fold_in sample d num_heads rngs rngs' m xq xk xv n_q n_k
         Hn Hinit Hq Hk Hv.
  unfold MultiHeadAttention_init in Hinit.
  destruct (make_heads fold_in sample (Z.to_nat num_heads) (Z.of_nat d) 0 1
              rngs) as [[hs r1]|e] eqn:E; [|discriminate].
  cbn [bind fst snd] in Hinit. injection Hinit as <- <-.
  apply make_heads_order in E. destruct E as (Hlen & _ & Hnth).
  set (g := fun h : Attention F =>
              attention_reference (W_q h) (W_k h) (W_v h) d xq xk xv None
                n_q n_k).
  assert (Hvalid : forall h, In h hs -> valid_head h d).
  { intros h Hin. destruct (In_nth hs h h Hin) as (t & Ht & <-).
    rewrite (Hnth t h) by lia. cbv zeta.
    repeat split; apply drawn_weights_shape. }
  assert (Hcall : forall h, In h hs ->
                    Attention_call h xq xk xv None = Ok (g h)).
  { intros h Hin.
    apply (Attention_call_ok h xq xk xv None d n_q n_k);
      [apply Hvalid; exact Hin | assumption .. | exact I]. }
  destruct hs as [|h1 hs']; [simpl in Hlen; lia|].
  assert (Hh1 : h1 = mkAttention
                       (drawn_weights fold_in sample (Z.of_nat d) rngs)
                       (drawn_weights fold_in sample (Z.of_nat d) rngs)
                       (drawn_weights fold_in sample (Z.of_nat d) rngs)
                       0 1 (Z.of_nat d)).
  { specialize (Hnth 0 h1). cbn [nth] in Hnth. rewrite Hnth by lia.
    cbv zeta. destruct rngs as [bk cnt]. cbn [base_key count].
    rewrite Nat.add_0_r. reflexivity. }
  assert (Hrows : Forall (fun b => nrows b = nrows (g h1)) (map g hs')).
  { apply Forall_forall. intros b Hb. apply in_map_iff in Hb.
    destruct Hb as [h [<- _]]. reflexivity. }
  exists h1, (g h1).
  eexists. split.
  { rewrite Attention_init_eq.
    replace (Z.of_nat d <? 0)%Z with false
      by (symmetry; apply Z.ltb_ge; lia).
    cbv zeta. rewrite Hh1. reflexivity. }
  split; [apply Hcall; left; reflexivity|].
  split.
  { unfold MultiHeadAttention_call. cbn [heads mha_col_dim].
    rewrite (mapM_pointwise _ g (h1 :: hs') Hcall). cbn [bind map].
    apply (concatenate_cols (g h1) (map g hs') Hrows). }
  split.
  - unfold shape. cbn [nrows ncols]. f_equal.
    rewrite <- Hlen. change (g h1 :: map g hs') with (map g (h1 :: hs')).
    rewrite <- (length_map g (h1 :: hs')).
    apply (list_sum_const _ (@ncols F)).
    intros b Hb. apply in_map_iff in Hb. destruct Hb as [h [<- _]].
    reflexivity.
  - intros i c Hi Hc. unfold get at 1. cbn [rows].
    rewrite (nth_map_seq _
               (fun i => concat (map (fun b => row b i)
                                   (g h1 :: map g hs')))) by exact Hi.
    cbn [map concat]. rewrite app_nth1.
    + reflexivity.
    + unfold g at 1, attention_reference. rewrite row_tabulate by exact Hi.
      rewrite length_map, length_seq. exact Hc.
Qed.

Lemma constructed_multi_head_call_witness :
  exists (h : Attention R) (o out : Array R),
    Attention_init demo_fold_in demo_sample (Z.of_nat 2) 0 1 demo_rngs =
      Ok (h, advance demo_rngs) /\
    Attention_call h wide_tokens wide_tokens wide_tokens None = Ok o /\
    MultiHeadAttention_call
      (mkMultiHeadAttention
         [mkAttention (drawn_weights demo_fold_in demo_sample 2 demo_rngs)
            (drawn_weights demo_fold_in demo_sample 2 demo_rngs)
            (drawn_weights demo_fold_in demo_sample 2 demo_rngs) 0 1 2;
          mkAttention
            (drawn_weights demo_fold_in demo_sample 2 (advance demo_rngs))
            (drawn_weights demo_fold_in demo_sample 2 (advance demo_rngs))
            (drawn_weights demo_fold_in demo_sample 2 (advance demo_rngs))
            0 1 2] 1)
      wide_tokens wide_tokens wide_tokens = Ok out /\
    shape out = (2, Z.to_nat 2 * 2) /\
    forall i c, i < 2 -> c < 2 -> get f0 out i c = get f0 o i c.
Proof.
  apply (constructed_multi_head_call R R_Scalar nat demo_fold_in demo_sample
           2 2 demo_rngs (advance (advance demo_rngs)) _
           wide_tokens wide_tokens wide_tokens 2 2);
    [lia | reflexivity | reflexivity | reflexivity | reflexivity].
Defined.

(** X10.  The call of [MultiHeadAttention] runs the heads in list order
    and stops at the first one that fails: when the heads before [h]
    return and [h] fails with [e], the call fails with [e] and nothing is
    concatenated. *)
Theorem multi_head_first_error :
  forall (F : Type) (SF : Scalar F) (m : MultiHeadAttention F)
         (hs1 hs2 : list (Attention F)) (h : Attention F)
         (xq xk xv : Array F) (e : error),
    heads m = hs1 ++ h :: hs2 ->
    (forall h', In h' hs1 ->
       exists o, Attention_call h' xq xk xv None = Ok o) ->
    Attention_call h xq xk xv None = Err e ->
    MultiHeadAttention_call m xq xk xv = Err e.
Proof.
  intros F SF m hs1 hs2 h xq xk xv e Hh Hok Herr.
  unfold MultiHeadAttention_call. rewrite Hh.
  rewrite (mapM_first_error
             (fun head => Attention_call head xq xk xv None)
             hs1 hs2 h e Hok Herr).
  reflexivity.
Qed.

Lemma multi_head_first_error_witness :
  MultiHeadAttention_call mixed_heads two_tokens two_tokens two_tokens =
  Err DotShapeError.
Proof.
  apply (multi_head_first_error R R_Scalar mixed_heads [unit_head] []
           wide_head two_tokens two_tokens two_tokens DotShapeError).
  - reflexivity.
  - intros h' [<-|[]]. eexists.
    apply (Attention_call_ok unit_head two_tokens two_tokens two_tokens None
             1 2 2); [repeat split | reflexivity | reflexivity | reflexivity
                     | exact I].
  - reflexivity.
Defined.

Section AxisFacts.
Context {F : Type} {SF : Scalar F}.

Lemma normalize_axis_out_of_range (a : Z) :
  (a < -2 \/ 1 < a)%Z -> normalize_axis a = Err AxisError.
Proof.
  intros H. unfold normalize_axis.
  destruct ((0 <=? a) && (a <? 2))%Z eqn:E1.
  - apply andb_prop in E1. destruct E1 as [E1 E2].
    apply Z.leb_le in E1. apply Z.ltb_lt in E2. lia.
  - destruct ((-2 <=? a) && (a <? 0))%Z eqn:E2; [|reflexivity].
    apply andb_prop in E2. destruct E2 as [E2 E3].
    apply Z.leb_le in E2. apply Z.ltb_lt in E3. lia.
Qed.

Lemma normalize_axis_error (a : Z) (e : error) :
  normalize_axis a = Err e -> e = AxisError.
Proof.
  unfold normalize_axis.
  destruct ((0 <=? a) && (a <? 2))%Z; [discriminate|].
  destruct ((-2 <=? a) && (a <? 0))%Z; [discriminate|].
  intros H. injection H as <-. reflexivity.
Qed.
End AxisFacts.

(** X11.  How the axis attributes are read.  The forward pass uses
    [row_dim] and [col_dim] only through their normal form on a 2-D array
    ([-2] and [-1] stand for [0] and [1]): two settings with the same
    normal forms give the same call.  When the three projections go
    through and one of the two attributes lies outside [-2 .. 1], the call
    fails with the axis error. *)
Theorem axis_attributes :
  forall (F : Type) (SF : Scalar F) (h : Attention F)
         (xq xk xv : Array F) (mask : option (Array bool)),
    (forall r c : Z,
        normalize_axis r = normalize_axis (row_dim h) ->
        normalize_axis c = normalize_axis (col_dim h) ->
        Attention_call (with_axes h r c) xq xk xv mask =
        Attention_call h xq xk xv mask) /\
    (ncols xq = nrows (W_q h) -> ncols xk = nrows (W_k h) ->
     ncols xv = nrows (W_v h) ->
     (row_dim h < -2 \/ 1 < row_dim h \/
      col_dim h < -2 \/ 1 < col_dim h)%Z ->
     Attention_call h xq xk xv mask = Err AxisError).
Proof.
  intros F SF h xq xk xv mask. split.
  - intros r c Hr Hc.
    unfold Attention_call, Attention_forward, with_axes, swapaxes, softmax.
    cbn [W_q W_k W_v row_dim col_dim d_model].
    rewrite Hr, Hc. reflexivity.
  - intros Hq Hk Hv Hax.
    unfold Attention_call, Attention_forward.
    rewrite (matmul_shape_ok xq (W_q h) Hq), (matmul_shape_ok xk (W_k h) Hk),
      (matmul_shape_ok xv (W_v h) Hv).
    cbn [bind]. unfold swapaxes.
    destruct (normalize_axis (row_dim h)) as [ax1|e1] eqn:E1.
    + cbn [bind].
      destruct (normalize_axis (col_dim h)) as [ax2|e2] eqn:E2.
      * destruct Hax as [H|[H|H]].
        -- rewrite normalize_axis_out_of_range in E1 by (left; exact H).
           discriminate.
        -- rewrite normalize_axis_out_of_range in E1 by (right; exact H).
           discriminate.
        -- rewrite normalize_axis_out_of_range in E2 by exact H.
           discriminate.
      * apply normalize_axis_error in E2. subst e2. reflexivity.
    + apply normalize_axis_error in E1. subst e1. reflexivity.
Qed.

Lemma axis_attributes_witness :
  Attention_call (with_axes unit_head (-2) (-1)) two_tokens two_tokens
    two_tokens None =
  Attention_call unit_head two_tokens two_tokens two_tokens None /\
  Attention_call (with_axes unit_head 0 2) two_tokens two_tokens two_tokens
    None = Err AxisError.
Proof.
  split.
  - destruct (axis_attributes R R_Scalar unit_head two_tokens two_tokens
                two_tokens None) as (H & _).
    apply H; reflexivity.
  - destruct (axis_attributes R R_Scalar (with_axes unit_head 0 2) two_tokens
                two_tokens two_tokens None) as (_ & H).
    apply H; try reflexivity. right. right. right. reflexivity.
Defined.

(** ** Further properties over the reals *)

Section RealForward.
Local Open Scope R_scope.

End RealForward.

Section RealExtras.
Local Open Scope R_scope.


End RealExtras.

(** ** The axis attributes exchanged *)

Section SwappedAxes.
Context {F : Type} {SF : Scalar F}.

Lemma softmax_cols (r c : nat) (f : nat -> nat -> F) :
  softmax (tabulate r c f) 0 =
  Ok (tabulate r c
        (fun i j =>
           nth i (softmax_lane (map (fun i' => f i' j) (seq 0 r))) f0)).
Proof.
  unfold softmax. cbn [normalize_axis bind]. simpl.
  rewrite transpose_tabulate.
  rewrite (map_rows_tabulate F f0 softmax_lane c r (fun i j => f j i)).
  - rewrite transpose_tabulate. reflexivity.
  - intros i _. rewrite softmax_lane_length, length_map, length_seq.
    reflexivity.
Qed.

Lemma swapaxes_1_0 (a : Array F) : swapaxes a 1 0 = Ok (transpose f0 a).
Proof. reflexivity. Qed.

(** With [row_dim = 1] and [col_dim = 0] the similarities are the same
    ([swapaxes] still transposes) and the softmax runs down the columns. *)
Lemma Attention_forward_swapped (h : Attention F) (xq xk xv : Array F)
    (mask : option (Array bool)) (d n_q n_k : nat) :
  row_dim h = 1%Z -> col_dim h = 0%Z ->
  valid_head (with_axes h 0 1) d ->
  shape xq = (n_q, d) -> shape xk = (n_k, d) -> shape xv = (n_k, d) ->
  valid_mask mask n_q n_k ->
  exists fw : Forward F,
    Attention_forward h xq xk xv mask = Ok fw /\
    scaled_sims fw =
      tabulate n_q n_k (ref_masked (W_q h) (W_k h) d xq xk mask) /\
    attention_percents fw =
      tabulate n_q n_k
        (fun i j =>
           nth i (softmax_lane
                    (map (fun i' =>
                            ref_masked (W_q h) (W_k h) d xq xk mask i' j)
                         (seq 0 n_q))) f0).
Proof.
  intros Hr Hc (_ & _ & Hd & Hwq & Hwk & Hwv) Hq Hk Hv Hm.
  cbn [with_axes W_q W_k W_v d_model] in *.
  unfold shape in *.
  injection Hwq as Hwq1 Hwq2. injection Hwk as Hwk1 Hwk2.
  injection Hwv as Hwv1 Hwv2. injection Hq as Hq1 Hq2.
  injection Hk as Hk1 Hk2. injection Hv as Hv1 Hv2.
  unfold Attention_forward.
  rewrite (matmul_shape_ok xq (W_q h)) by congruence.
  rewrite (matmul_shape_ok xk (W_k h)) by congruence.
  rewrite (matmul_shape_ok xv (W_v h)) by congruence.
  rewrite Hq1, Hq2, Hk1, Hk2, Hv1, Hv2, Hwq2, Hwk2, Hwv2, Hr, Hc, Hd.
  cbn [bind]. rewrite swapaxes_1_0. cbn [bind].
  rewrite transpose_tabulate, matmul_tabulate. cbn [bind].
  unfold div_scalar. rewrite map_array_tabulate.
  rewrite (mask_step mask neg_1e9 n_q n_k _ Hm). cbn [bind].
  rewrite softmax_cols. cbn [bind].
  rewrite matmul_tabulate. cbn [bind].
  eexists. split; [reflexivity|].
  cbn [scaled_sims attention_percents]. split; reflexivity.
Qed.
End SwappedAxes.


(** ** The mask cell *)

(** X17.  The mask cell of the masked notebook.  When [==] tells zero
    from one, [jnp.tril(jnp.ones((n, n))) == 0] is the causal mask: true at
    [(i, j)] exactly when [j > i]. *)
Theorem notebook_mask_is_causal :
  forall (F : Type) (SF : Scalar F) (one : F) (feqb : F -> F -> bool)
         (n : nat),
    feqb f0 (of_int 0) = true ->
    feqb one (of_int 0) = false ->
    notebook_mask one feqb n = causal_mask n /\
    forall i j, i < n -> j < n ->
      get false (notebook_mask one feqb n) i j = true <-> i < j.
Proof.
  intros F SF one feqb n H0 H1.
  assert (E : notebook_mask one feqb n = causal_mask n).
  { unfold notebook_mask, eq_scalar, tril, ones, causal_mask.
    cbn [nrows ncols tabulate]. apply tabulate_ext. intros i j Hi Hj.
    fold (tabulate n n (fun _ _ : nat => one)).
    fold (tabulate n n
            (fun i j => if j <=? i
                        then get f0 (tabulate n n (fun _ _ => one)) i j
                        else f0)).
    rewrite get_tabulate by assumption.
    destruct (j <=? i) eqn:E.
    - rewrite get_tabulate by assumption. rewrite H1.
      apply Nat.leb_le in E. symmetry. apply Nat.ltb_ge. exact E.
    - rewrite H0. apply Nat.leb_gt in E. symmetry. apply Nat.ltb_lt.
      exact E. }
  split; [exact E|]. intros i j Hi Hj. rewrite E. unfold causal_mask.
  rewrite get_tabulate by assumption. apply Nat.ltb_lt.
Qed.

Lemma notebook_mask_is_causal_witness :
  notebook_mask 1%R Reqb 3 = causal_mask 3 /\
  forall i j, i < 3 -> j < 3 ->
    get false (notebook_mask 1%R Reqb 3) i j = true <-> i < j.
Proof.
  apply (notebook_mask_is_causal R R_Scalar 1%R Reqb 3).
  - unfold Reqb. real_ops.
    destruct (Req_dec_T 0 0) as [_|H]; [reflexivity | contradiction H].
    reflexivity.
  - unfold Reqb. real_ops.
    destruct (Req_dec_T 1 0) as [H|_]; [|reflexivity].
    exfalso. apply R1_neq_R0. exact H.
Defined.

(** X18.  The weights do not look at the values.  Two value sources of
    the same shape give, with the same queries, keys and mask, the same
    scaled similarities and the same attention weights. *)
Theorem weights_independent_of_values :
  forall (F : Type) (SF : Scalar F) (h : Attention F)
         (xq xk xv xv' : Array F) (mask : option (Array bool))
         (d n_q n_k : nat),
    valid_head h d ->
    shape xq = (n_q, d) -> shape xk = (n_k, d) ->
    shape xv = (n_k, d) -> shape xv' = (n_k, d) ->
    valid_mask mask n_q n_k ->
    exists fw fw' : Forward F,
      Attention_forward h xq xk xv mask = Ok fw /\
      Attention_forward h xq xk xv' mask = Ok fw' /\
      scaled_sims fw = scaled_sims fw' /\
      attention_percents fw = attention_percents fw'.
Proof.
  intros F SF h xq xk xv xv' mask d n_q n_k Hh Hq Hk Hv Hv' Hm.
  eexists. eexists.
  split; [apply (Attention_forward_ok h xq xk xv mask d n_q n_k);
          assumption|].
  split; [apply (Attention_forward_ok h xq xk xv' mask d n_q n_k);
          assumption|].
  split; reflexivity.
Qed.

Lemma weights_independent_of_values_witness :
  exists fw fw' : Forward R,
    Attention_forward unit_head two_tokens two_tokens two_tokens None =
      Ok fw /\
    Attention_forward unit_head two_tokens two_tokens two_tokens_alt None =
      Ok fw' /\
    scaled_sims fw = scaled_sims fw' /\
    attention_percents fw = attention_percents fw'.
Proof.
  apply (weights_independent_of_values R R_Scalar unit_head two_tokens
           two_tokens two_tokens two_tokens_alt None 1 2 2);
    [repeat split | reflexivity | reflexivity | reflexivity | reflexivity
    | exact I].
Defined.

(** * The attention weights in floating-point arithmetic *)

(** ** The arithmetic with NaN and infinities satisfies the laws *)

Section XLaws.
Local Open Scope R_scope.

Lemma exp_1_ge_2 : 2 <= exp 1.
Proof. pose proof (exp_ineq1 1). lra. Qed.

Lemma exp_20_gt_million : 1000000 < exp 20.
Proof.
  assert (H2 : exp 2 = exp 1 * exp 1)
    by (rewrite <- exp_plus; f_equal; lra).
  assert (H4 : exp 4 = exp 2 * exp 2)
    by (rewrite <- exp_plus; f_equal; lra).
  assert (H8 : exp 8 = exp 4 * exp 4)
    by (rewrite <- exp_plus; f_equal; lra).
  assert (H16 : exp 16 = exp 8 * exp 8)
    by (rewrite <- exp_plus; f_equal; lra).
  assert (H20 : exp 20 = exp 16 * exp 4)
    by (rewrite <- exp_plus; f_equal; lra).
  pose proof exp_1_ge_2 as H1.
  assert (4 <= exp 2) by nra.
  assert (16 <= exp 4) by nra.
  assert (256 <= exp 8) by nra.
  assert (65536 <= exp 16) by nra.
  nra.
Qed.

Lemma exp_minus_20_small : exp (Ropp 20) < 1 / 1000000.
Proof.
  rewrite exp_Ropp. pose proof exp_20_gt_million as H.
  unfold Rdiv. rewrite Rmult_1_l. apply Rinv_lt_contravar; nra.
Qed.

Lemma clamp_num (r : R) : - big <= r <= big -> clamp r = Num r.
Proof.
  intros [H1 H2]. unfold clamp.
  destruct (Rlt_dec big r); [lra|].
  destruct (Rlt_dec r (- big)); [lra | reflexivity].
Qed.

Lemma clamp_mono (r s : R) : r <= s -> xle (clamp r) (clamp s).
Proof. intros H. x_cases. Qed.

Lemma big_pos : 1 < big.
Proof. unfold big. lra. Qed.

Lemma X_Laws : FloatLaws xreal.
Proof.
  pose proof big_pos as Hbig.
  constructor; x_ops.
  - (* fin_zero *) x_red. lra.
  - (* fin_one *) rewrite clamp_num by lra. x_red. lra.
  - (* toR_zero *) reflexivity.
  - (* toR_one *) rewrite clamp_num by lra. reflexivity.
  - (* eps_range *) lra.
  - (* eta_nonneg *) lra.
  - (* fle_refl *) intros [| | |x] H; x_red; try contradiction. lra.
  - (* fle_trans *)
    intros [| | |x] [| | |y] [| | |z]; x_red; intros; try contradiction;
      try exact I; lra.
  - (* fin_between *)
    intros [| | |a] [| | |b] [| | |c]; x_red; intros; try contradiction; lra.
  - (* fle_toR *)
    intros [| | |a] [| | |b]; x_red; intros; try contradiction; lra.
  - (* fmax_choice *)
    intros [| | |a] [| | |b]; x_red; intros; try contradiction.
    unfold Rmax. destruct (Rle_dec a b); [right | left]; reflexivity.
  - (* fmax_upper *)
    intros [| | |a] [| | |b]; x_red; intros; try contradiction.
    split; [apply Rmax_l | apply Rmax_r].
  - (* fsub_self *)
    intros [| | |x]; x_red; intros; try contradiction.
    unfold xsub. x_red. rewrite clamp_num by lra. f_equal. lra.
  - (* fsub_mono *)
    intros [| | |a] [| | |b] [| | |c]; x_red; intros; try contradiction.
    unfold xsub. x_red. apply clamp_mono. lra.
  - (* fsub_antitone *)
    intros [| | |c] [| | |a] [| | |b]; x_red; intros; try contradiction.
    unfold xsub. x_red. apply clamp_mono. lra.
  - (* fexp_zero *)
    x_red. destruct (Rle_dec 0 (-150)); [lra|]. rewrite exp_0. reflexivity.
  - (* fexp_unit *)
    rewrite clamp_num by lra.
    intros [| | |y]; x_red; intros; try contradiction; [lra|].
    destruct (Rle_dec y (-150)); [x_red; lra|].
    assert (0 < exp y) by apply exp_pos.
    assert (exp y <= 1) by (rewrite <- exp_0; apply exp_le_mono; lra).
    rewrite clamp_num by lra. x_red. lra.
  - (* fexp_underflow *)
    intros [| | |y]; x_red; intros; try contradiction; [reflexivity|].
    destruct (Rle_dec y (-150)); [reflexivity | lra].
  - (* fexp_small *)
    intros [| | |y]; x_red; intros; try contradiction; [lra|].
    destruct (Rle_dec y (-150)); [x_red; lra|].
    assert (0 < exp y) by apply exp_pos.
    assert (exp y <= exp (Ropp 20)) by (apply exp_le_mono; lra).
    pose proof exp_minus_20_small.
    rewrite clamp_num by lra. x_red. lra.
  - (* fadd_upper *)
    intros [| | |a] [| | |b]; x_red; intros; try contradiction;
      try (split; exact I).
    split; x_cases.
  - (* fadd_zero_one *)
    rewrite clamp_num by lra. x_red. rewrite clamp_num by lra.
    f_equal. lra.
  - (* fadd_round *)
    intros [| | |a] [| | |b]; x_red; intros; try contradiction.
    rewrite clamp_num by lra. x_red.
    split; [lra|].
    replace (a + b - (a + b)) with 0 by lra. rewrite Rabs_R0. lra.
  - (* fdiv_zero *)
    rewrite clamp_num by lra.
    intros [| | |t]; x_red; intros; try contradiction; [reflexivity|].
    destruct (Req_dec_T t 0); [lra|].
    unfold Rdiv. rewrite Rmult_0_l. apply clamp_num. lra.
  - (* fdiv_one_one *)
    rewrite clamp_num by lra. x_red.
    destruct (Req_dec_T 1 0); [lra|].
    unfold Rdiv. rewrite Rinv_1, Rmult_1_r. apply clamp_num. lra.
  - (* fdiv_le_num *)
    rewrite clamp_num by lra.
    intros [| | |a] [| | |t]; x_red; intros; try contradiction; [lra|].
    destruct (Req_dec_T t 0); [lra|].
    assert (Hi : 0 < / t) by (apply Rinv_0_lt_compat; lra).
    assert (Hi1 : / t <= 1).
    { rewrite <- Rinv_1. apply Rinv_le_contravar; lra. }
    assert (0 <= a / t <= a) by (unfold Rdiv; split; nra).
    rewrite clamp_num by lra. x_red. lra.
  - (* fdiv_round *)
    rewrite clamp_num by lra.
    intros [| | |a] [| | |t]; x_red; intros; try contradiction.
    destruct (Req_dec_T t 0); [lra|].
    assert (Hi : 0 < / t) by (apply Rinv_0_lt_compat; lra).
    assert (Hi1 : / t <= 1).
    { rewrite <- Rinv_1. apply Rinv_le_contravar; lra. }
    assert (0 <= a / t <= a) by (unfold Rdiv; split; nra).
    rewrite clamp_num by lra. x_red.
    replace (a / t - a / t) with 0 by lra. rewrite Rabs_R0. lra.
Qed.

Lemma X_ProductLaws : ProductLaws xreal.
Proof.
  pose proof big_pos as Hbig.
  constructor; x_ops.
  - (* fmul_self_nonneg *)
    intros [| | |x]; x_red; intros; try contradiction; try exact I.
    assert (0 <= x * x) by nra. x_cases.
  - (* fadd_num *)
    intros [| | |a] [| | |b]; x_red; intros; try contradiction;
      split; try exact I; lra.
  - (* fdiv_num *)
    intros [| | |a] [| | |t]; x_red; intros; try contradiction;
      try exact I; lra.
  - (* fdiv_sqrt_nonneg *)
    intros a d Hd Ha Hnum.
    assert (H1 : 1 <= IZR d) by (apply IZR_le in Hd; exact Hd).
    assert (Hs : 1 <= sqrt (IZR d)).
    { rewrite <- sqrt_1. apply sqrt_le_1_alt. exact H1. }
    unfold clamp in *.
    destruct (Rlt_dec big (IZR d)).
    + destruct a as [| | |a]; x_red; try contradiction. lra.
    + destruct (Rlt_dec (IZR d) (- big)); [lra|].
      x_red. destruct (Rlt_dec (IZR d) 0); [lra|].
      destruct a as [| | |a]; x_red; try contradiction.
      * destruct (Rlt_dec (sqrt (IZR d)) 0); [lra | exact I].
      * destruct (Req_dec_T (sqrt (IZR d)) 0); [lra|].
        assert (Hi : 0 < / sqrt (IZR d))
          by (apply Rinv_0_lt_compat; lra).
        assert (0 <= a / sqrt (IZR d)) by (unfold Rdiv; nra).
        fold (clamp (a / sqrt (IZR d))). x_cases.
  - (* sentinel_underflows *)
    unfold xsub. x_red. x_cases.
Qed.
End XLaws.
(** ** Maximum, sum and softmax of a lane, from the laws *)

Section FloatLanes.
Context {F : Type} {SF : Scalar F} {FF : FloatFormat F} {FL : FloatLaws F}.

Lemma fle_zero_one : fle f0 (of_int 1).
Proof.
  rewrite <- fexp_zero. apply fexp_unit. apply fle_refl. exact fin_zero.
Qed.

(** The running maximum of finite numbers is one of them and bounds
    them all. *)
Lemma fold_fmax_spec (xs : list F) :
  forall x : F,
    fin x -> (forall y, In y xs -> fin y) ->
    In (fold_left fmax xs x) (x :: xs) /\
    fin (fold_left fmax xs x) /\
    fle x (fold_left fmax xs x) /\
    (forall y, In y xs -> fle y (fold_left fmax xs x)).
Proof.
  induction xs as [|z xs IH]; intros x Hx Hxs; cbn [fold_left].
  - split; [left; reflexivity|]. split; [exact Hx|].
    split; [apply fle_refl; exact Hx | intros y []].
  - assert (Hz : fin z) by (apply Hxs; left; reflexivity).
    destruct (fmax_upper x z Hx Hz) as [Hxm Hzm].
    assert (Hm : fin (fmax x z)).
    { destruct (fmax_choice x z Hx Hz) as [-> | ->]; assumption. }
    destruct (IH (fmax x z) Hm) as (Hin & Hfin & Hle & Hall).
    { intros y Hy. apply Hxs. right. exact Hy. }
    split; [|split; [exact Hfin|split]].
    + destruct Hin as [E|Hin]; [|right; right; exact Hin].
      destruct (fmax_choice x z Hx Hz) as [E'|E'].
      * left. transitivity (fmax x z); [symmetry; exact E' | exact E].
      * right. left.
        transitivity (fmax x z); [symmetry; exact E' | exact E].
    + apply fle_trans with (fmax x z); assumption.
    + intros y [<-|Hy].
      * apply fle_trans with (fmax x z); assumption.
      * apply Hall. exact Hy.
Qed.

(** A running sum of non-negative numbers bounds each of them. *)
Lemma fold_fadd_upper (l : list F) :
  forall acc : F,
    fle f0 acc -> (forall y, In y l -> fle f0 y) ->
    (forall w, fle w acc -> fle w (fold_left fadd l acc)) /\
    (forall z, In z l -> fle z (fold_left fadd l acc)).
Proof.
  induction l as [|y l IH]; intros acc Hacc Hl; cbn [fold_left].
  - split; [intros w Hw; exact Hw | intros z []].
  - assert (Hy : fle f0 y) by (apply Hl; left; reflexivity).
    destruct (fadd_upper acc y Hacc Hy) as [Ha Hb].
    destruct (IH (fadd acc y)) as [Hw Hz].
    + apply fle_trans with acc; assumption.
    + intros z Hz. apply Hl. right. exact Hz.
    + split.
      * intros w Hw'. apply Hw. apply fle_trans with acc; assumption.
      * intros z [<-|Hz']; [apply Hw; exact Hb | apply Hz; exact Hz'].
Qed.

(** The softmax of a lane of finite scores: the maximum [M] is a member,
    the exponentials lie in [[0, 1]], one of them is 1 and the total [T]
    is at least 1. *)
Lemma softmax_lane_float (lane : list F) :
  lane <> [] ->
  (forall y, In y lane -> fin y) ->
  exists M T : F,
    In M lane /\ fin M /\
    (forall y, In y lane -> fle y M) /\
    T = fsum (map (fun y => fexp (fsub y M)) lane) /\
    fle (of_int 1) T /\
    softmax_lane lane = map (fun y => fdiv (fexp (fsub y M)) T) lane /\
    (forall y, In y lane ->
       fin (fexp (fsub y M)) /\
       fle f0 (fexp (fsub y M)) /\ fle (fexp (fsub y M)) (of_int 1)).
Proof.
  intros Hne Hfin. destruct lane as [|x xs]; [contradiction|].
  destruct (fold_fmax_spec xs x) as (Hin & HM & HxM & Hall).
  { apply Hfin. left. reflexivity. }
  { intros y Hy. apply Hfin. right. exact Hy. }
  set (M := fold_left fmax xs x) in *.
  assert (Hle : forall y, In y (x :: xs) -> fle y M).
  { intros y [<-|Hy]; [exact HxM | apply Hall; exact Hy]. }
  assert (Hu : forall y, In y (x :: xs) ->
             fin (fexp (fsub y M)) /\
             fle f0 (fexp (fsub y M)) /\ fle (fexp (fsub y M)) (of_int 1)).
  { intros y Hy.
    assert (H0 : fle (fsub y M) f0).
    { rewrite <- (fsub_self M HM).
      apply fsub_mono; [apply Hfin; exact Hy | exact HM | exact HM |].
      apply Hle. exact Hy. }
    destruct (fexp_unit _ H0) as [H1 H2].
    split; [|split; assumption].
    apply (fin_between f0 _ (of_int 1));
      [exact fin_zero | exact fin_one | exact H1 | exact H2]. }
  exists M, (fsum (map (fun y => fexp (fsub y M)) (x :: xs))).
  split; [exact Hin|]. split; [exact HM|]. split; [exact Hle|].
  split; [reflexivity|]. split; [|split; [|exact Hu]].
  - unfold fsum.
    destruct (fold_fadd_upper (map (fun y => fexp (fsub y M)) (x :: xs)) f0)
      as [_ Hmem].
    + apply fle_refl. exact fin_zero.
    + intros u Hin'. apply in_map_iff in Hin'.
      destruct Hin' as (y & <- & Hy). apply (Hu y Hy).
    + apply Hmem. apply in_map_iff. exists M. split; [|exact Hin].
      rewrite (fsub_self M HM). apply fexp_zero.
  - unfold softmax_lane. fold M. rewrite map_map. reflexivity.
Qed.

(** Entry [j] of the softmax of a lane of finite scores. *)
Lemma softmax_lane_float_nth (lane : list F) (j : nat) :
  (forall y, In y lane -> fin y) ->
  j < length lane ->
  exists M T : F,
    In M lane /\ fin M /\
    (forall y, In y lane -> fle y M) /\
    fle (of_int 1) T /\
    nth j (softmax_lane lane) f0 = fdiv (fexp (fsub (nth j lane f0) M)) T /\
    fin (fexp (fsub (nth j lane f0) M)) /\
    fle f0 (fexp (fsub (nth j lane f0) M)) /\
    fle (fexp (fsub (nth j lane f0) M)) (of_int 1).
Proof.
  intros Hfin Hj.
  destruct (softmax_lane_float lane)
    as (M & T & Hin & HM & Hle & _ & HT & E & Hu).
  { intros ->. simpl in Hj. lia. }
  { exact Hfin. }
  exists M, T. split; [exact Hin|]. split; [exact HM|].
  split; [exact Hle|]. split; [exact HT|]. split.
  - rewrite E.
    rewrite (nth_indep _ f0 (fdiv (fexp (fsub f0 M)) T))
      by (rewrite length_map; exact Hj).
    apply (map_nth (fun y => fdiv (fexp (fsub y M)) T)).
  - apply Hu. apply nth_In. exact Hj.
Qed.

(** Every weight of such a lane is a finite number in [[0, 1]]. *)
Lemma softmax_lane_unit (lane : list F) (j : nat) :
  (forall y, In y lane -> fin y) ->
  j < length lane ->
  fin (nth j (softmax_lane lane) f0) /\
  fle f0 (nth j (softmax_lane lane) f0) /\
  fle (nth j (softmax_lane lane) f0) (of_int 1).
Proof.
  intros Hfin Hj.
  destruct (softmax_lane_float_nth lane j Hfin Hj)
    as (M & T & _ & _ & _ & HT & -> & Hu & H0 & H1).
  destruct (fdiv_le_num _ T Hu H0 HT) as [Hlo Hhi].
  assert (Hhi1 : fle (fdiv (fexp (fsub (nth j lane f0) M)) T) (of_int 1))
    by (eapply fle_trans; eassumption).
  split; [|split; assumption].
  apply (fin_between f0 _ (of_int 1));
    [exact fin_zero | exact fin_one | exact Hlo | exact Hhi1].
Qed.

(** A score far enough below another score of its lane gets weight 0,
    and a weight under [1e-6] when it is only moderately below. *)
Lemma softmax_lane_negligible (lane : list F) (j u : nat) :
  (forall y, In y lane -> fin y) ->
  j < length lane -> u < length lane ->
  (fle (fsub (nth j lane f0) (nth u lane f0)) small_bound ->
   (toR (nth j (softmax_lane lane) f0) < 1 / 1000000)%R) /\
  (fle (fsub (nth j lane f0) (nth u lane f0)) underflow_bound ->
   nth j (softmax_lane lane) f0 = f0).
Proof.
  intros Hfin Hj Hu.
  destruct (softmax_lane_float_nth lane j Hfin Hj)
    as (M & T & _ & HM & Hle & HT & E & Hfu & H0 & H1).
  assert (Hgap : fle (fsub (nth j lane f0) M)
                     (fsub (nth j lane f0) (nth u lane f0))).
  { apply fsub_antitone;
      [apply Hfin, nth_In; exact Hj | apply Hfin, nth_In; exact Hu
      | exact HM | apply Hle, nth_In; exact Hu]. }
  split; intros Hb; rewrite E.
  - destruct (fdiv_le_num _ T Hfu H0 HT) as [Hlo Hhi].
    assert (Hfw : fin (fdiv (fexp (fsub (nth j lane f0) M)) T)).
    { apply (fin_between f0 _ (fexp (fsub (nth j lane f0) M)));
        [exact fin_zero | exact Hfu | exact Hlo | exact Hhi]. }
    apply Rle_lt_trans with (toR (fexp (fsub (nth j lane f0) M))).
    + apply fle_toR; assumption.
    + apply fexp_small. eapply fle_trans; eassumption.
  - rewrite (fexp_underflow (fsub (nth j lane f0) M))
      by (eapply fle_trans; eassumption).
    apply fdiv_zero. exact HT.
Qed.

(** A lane of one finite score has the single weight 1. *)
Lemma softmax_lane_single (x : F) :
  fin x -> softmax_lane [x] = [of_int 1].
Proof.
  intros Hx. unfold softmax_lane, fsum. cbn [fold_left map].
  rewrite (fsub_self x Hx), fexp_zero, fadd_zero_one, fdiv_one_one.
  reflexivity.
Qed.
End FloatLanes.

(** ** The row sum, from the rounding laws *)

Section FloatSums.
Context {F : Type} {SF : Scalar F} {FF : FloatFormat F} {FL : FloatLaws F}.
Local Open Scope R_scope.

Lemma one_plus_eps_pow (k : nat) : 1 <= (1 + eps) ^ k.
Proof. apply pow_R1_Rle. pose proof eps_range. lra. Qed.

Lemma one_minus_eps_pow (k : nat) : 0 < (1 - eps) ^ k <= 1.
Proof.
  pose proof eps_range as He. split.
  - apply pow_lt. lra.
  - apply Rle_trans with (1 ^ k); [apply pow_incr; lra|].
    rewrite pow1. lra.
Qed.

Lemma Rabs_bound (x y b : R) : Rabs (x - y) <= b -> y - b <= x <= y + b.
Proof.
  intros H. unfold Rabs in H. destruct (Rcase_abs (x - y)); lra.
Qed.

Lemma unit_toR (y : F) :
  fin y -> fle f0 y -> fle y (of_int 1) -> 0 <= toR y <= 1.
Proof.
  intros Hy H0 H1. rewrite <- toR_zero, <- toR_one.
  split; apply fle_toR;
    [exact fin_zero | exact Hy | exact H0 | exact Hy | exact fin_one
    | exact H1].
Qed.

(** The running sum of [k + length l] numbers of [[0, 1]] stays finite
    and within the relative error [(1 +- eps) ^ (k + length l)] of the
    exact sum. *)
Lemma fold_fadd_round (l : list F) :
  forall (acc : F) (k : nat) (s : R),
    fin acc -> fle f0 acc ->
    0 <= s <= INR k ->
    (1 - eps) ^ k * s <= toR acc <= (1 + eps) ^ k * s ->
    (forall y, In y l -> fin y /\ fle f0 y /\ fle y (of_int 1)) ->
    (1 + eps) ^ (k + length l) * INR (k + length l) <= huge ->
    fin (fold_left fadd l acc) /\
    (1 - eps) ^ (k + length l) * (s + real_sum (map toR l)) <=
      toR (fold_left fadd l acc) <=
    (1 + eps) ^ (k + length l) * (s + real_sum (map toR l)).
Proof.
  pose proof eps_range as He.
  induction l as [|y l IH]; intros acc k s Hfin Hpos Hs Hacc Hl Hhuge.
  - cbn [fold_left length map real_sum fold_right].
    rewrite Nat.add_0_r, Rplus_0_r. split; [exact Hfin | exact Hacc].
  - cbn [fold_left length map real_sum fold_right].
    fold (real_sum (map toR l)).
    destruct (Hl y (or_introl eq_refl)) as (Hy & Hy0 & Hy1).
    destruct (unit_toR y Hy Hy0 Hy1) as [Hv0 Hv1].
    pose proof (one_plus_eps_pow k) as HP.
    pose proof (one_minus_eps_pow k) as HQ.
    set (P := (1 + eps) ^ k) in *. set (Q := (1 - eps) ^ k) in *.
    set (a := toR acc) in *. set (v := toR y) in *.
    assert (Hsum : a + v <= P * INR (S k)).
    { rewrite S_INR. nra. }
    assert (Hbig : P * INR (S k) <=
                   (1 + eps) ^ (k + S (length l)) * INR (k + S (length l))).
    { apply Rmult_le_compat.
      - lra.
      - apply pos_INR.
      - apply Rle_pow; [lra | lia].
      - apply le_INR. lia. }
    destruct (fadd_round acc y Hfin Hy Hpos Hy0) as [Hfin' Hround].
    { cbn [length] in Hhuge. fold a v. lra. }
    apply Rabs_bound in Hround. fold a v in Hround.
    destruct (fadd_upper acc y Hpos Hy0) as [Hup _].
    destruct (IH (fadd acc y) (S k) (s + v)) as [Hf Hb].
    + exact Hfin'.
    + apply fle_trans with acc; assumption.
    + rewrite S_INR. lra.
    + cbn [pow]. fold P Q.
      assert (Hlo : Q * (s + v) <= a + v) by nra.
      assert (Hhi : a + v <= P * (s + v)) by nra.
      assert (Hlo' : (1 - eps) * (Q * (s + v)) <= (1 - eps) * (a + v))
        by (apply Rmult_le_compat_l; lra).
      assert (Hhi' : (1 + eps) * (a + v) <= (1 + eps) * (P * (s + v)))
        by (apply Rmult_le_compat_l; lra).
      split; lra.
    + intros z Hz. apply Hl. right. exact Hz.
    + replace (S k + length l)%nat with (k + S (length l))%nat by lia.
      exact Hhuge.
    + replace (S k + length l)%nat with (k + S (length l))%nat in Hb by lia.
      split; [exact Hf|].
      replace (s + (v + real_sum (map toR l)))
        with (s + v + real_sum (map toR l)) by lra.
      exact Hb.
Qed.

(** Dividing non-negative numbers by a total [T >= 1]: the exact sum of
    the rounded quotients against the exact quotient of the sum. *)
Lemma quotients_sum_round (us : list F) (T : F) :
  fin T -> fle (of_int 1) T ->
  (forall u, In u us -> fin u /\ fle f0 u) ->
  (1 - eps) * (real_sum (map toR us) / toR T) - INR (length us) * eta <=
    real_sum (map toR (map (fun u => fdiv u T) us)) <=
  (1 + eps) * (real_sum (map toR us) / toR T) + INR (length us) * eta.
Proof.
  intros HT H1 Hus. induction us as [|u us IH].
  - cbn [map real_sum fold_right length INR]. unfold Rdiv. lra.
  - cbn [map real_sum fold_right length].
    fold (real_sum (map toR us)).
    fold (real_sum (map toR (map (fun u => fdiv u T) us))).
    rewrite S_INR.
    destruct (Hus u (or_introl eq_refl)) as [Hu Hu0].
    pose proof (fdiv_round u T Hu HT Hu0 H1) as Hr.
    apply Rabs_bound in Hr.
    assert (IH' := IH (fun z Hz => Hus z (or_intror Hz))).
    unfold Rdiv in *. lra.
Qed.

(** The weights of a lane of finite scores sum to 1 up to rounding. *)
Lemma softmax_lane_sum_float (lane : list F) :
  lane <> [] ->
  (forall y, In y lane -> fin y) ->
  (1 + eps) ^ length lane * INR (length lane) <= huge ->
  (1 - eps) / (1 + eps) ^ length lane - INR (length lane) * eta <=
    real_sum (map toR (softmax_lane lane)) <=
  (1 + eps) / (1 - eps) ^ length lane + INR (length lane) * eta.
Proof.
  intros Hne Hfin Hhuge. pose proof eps_range as He.
  destruct (softmax_lane_float lane Hne Hfin)
    as (M & T & _ & _ & _ & HT & H1 & E & Hu).
  set (us := map (fun y => fexp (fsub y M)) lane) in *.
  assert (Hus : forall u, In u us ->
                  fin u /\ fle f0 u /\ fle u (of_int 1)).
  { intros u Hin. apply in_map_iff in Hin. destruct Hin as (y & <- & Hy).
    apply Hu. exact Hy. }
  assert (Hlen : length us = length lane) by apply length_map.
  destruct (fold_fadd_round us f0 0 0) as [HfT HbT].
  { exact fin_zero. }
  { apply fle_refl. exact fin_zero. }
  { simpl. lra. }
  { rewrite toR_zero. simpl. lra. }
  { exact Hus. }
  { rewrite Hlen. exact Hhuge. }
  cbn [Nat.add] in HbT. rewrite Hlen, Rplus_0_l in HbT.
  fold (fsum us) in HbT, HfT. rewrite <- HT in HbT, HfT.
  assert (E' : softmax_lane lane = map (fun u => fdiv u T) us).
  { rewrite E. unfold us. rewrite map_map. reflexivity. }
  rewrite E'.
  pose proof (quotients_sum_round us T HfT H1
                (fun u Hin => conj (proj1 (Hus u Hin))
                                (proj1 (proj2 (Hus u Hin))))) as Hq.
  rewrite Hlen in Hq.
  assert (Ht1 : 1 <= toR T).
  { rewrite <- toR_one. apply fle_toR; [exact fin_one | exact HfT | exact H1]. }
  pose proof (one_plus_eps_pow (length lane)) as HP.
  pose proof (one_minus_eps_pow (length lane)) as HQ.
  set (P := (1 + eps) ^ length lane) in *.
  set (Q := (1 - eps) ^ length lane) in *.
  set (S := real_sum (map toR us)) in *.
  set (t := toR T) in *.
  assert (Hit : 0 < / t) by (apply Rinv_0_lt_compat; lra).
  assert (Hx1 : S / t <= / Q).
  { apply Rmult_le_reg_r with Q; [lra|].
    rewrite Rinv_l by lra. unfold Rdiv.
    replace (S * / t * Q) with ((Q * S) * / t) by lra.
    apply Rmult_le_reg_r with t; [lra|].
    rewrite Rmult_assoc, Rinv_l by lra. lra. }
  assert (Hx2 : / P <= S / t).
  { apply Rmult_le_reg_r with P; [lra|].
    rewrite Rinv_l by lra. unfold Rdiv.
    replace (S * / t * P) with ((P * S) * / t) by lra.
    apply Rmult_le_reg_r with t; [lra|].
    rewrite Rmult_assoc, Rinv_l by lra. lra. }
  assert (Hlo : (1 - eps) * / P <= (1 - eps) * (S / t))
    by (apply Rmult_le_compat_l; lra).
  assert (Hhi : (1 + eps) * (S / t) <= (1 + eps) * / Q)
    by (apply Rmult_le_compat_l; lra).
  unfold Rdiv in *. lra.
Qed.
End FloatSums.

(** ** The forward pass in floating-point arithmetic *)

Section FloatForward.
Context {F : Type} {SF : Scalar F} {FF : FloatFormat F} {FL : FloatLaws F}.

(** On a row whose scaled scores are all finite the weights are finite
    numbers of [[0, 1]], they sum to 1 up to rounding, and a masked
    position gets a weight under [1e-6], or exactly 0, when the row holds
    a score far enough above the sentinel. *)
Lemma Attention_forward_float (h : Attention F) (xq xk xv : Array F)
    (mask : option (Array bool)) (d n_q n_k : nat) :
  valid_head h d ->
  shape xq = (n_q, d) -> shape xk = (n_k, d) -> shape xv = (n_k, d) ->
  valid_mask mask n_q n_k ->
  exists fw : Forward F,
    Attention_forward h xq xk xv mask = Ok fw /\
    shape (attention_percents fw) = (n_q, n_k) /\
    forall i, i < n_q ->
      (forall u, u < n_k -> fin (get f0 (scaled_sims fw) i u)) ->
      (forall j, j < n_k ->
         fin (get f0 (attention_percents fw) i j) /\
         fle f0 (get f0 (attention_percents fw) i j) /\
         fle (get f0 (attention_percents fw) i j) (of_int 1)) /\
      (1 <= n_k ->
       ((1 + eps) ^ n_k * INR n_k <= huge)%R ->
       ((1 - eps) / (1 + eps) ^ n_k - INR n_k * eta <=
          real_sum (map toR (row (attention_percents fw) i)) <=
        (1 + eps) / (1 - eps) ^ n_k + INR n_k * eta)%R) /\
      (forall m j u,
         mask = Some m -> j < n_k -> u < n_k ->
         get false m i j = true ->
         (fle (fsub neg_1e9 (get f0 (scaled_sims fw) i u)) small_bound ->
          (toR (get f0 (attention_percents fw) i j) < 1 / 1000000)%R) /\
         (fle (fsub neg_1e9 (get f0 (scaled_sims fw) i u)) underflow_bound ->
          get f0 (attention_percents fw) i j = f0)).
Proof.
  intros Hh Hq Hk Hv Hm.
  destruct (Attention_forward_rows h xq xk xv mask d n_q n_k
              Hh Hq Hk Hv Hm) as (fw & Hfw & HsP & _ & Hrows & Hget).
  exists fw. split; [exact Hfw|]. split; [exact HsP|].
  intros i Hi Hrow. destruct (Hrows i Hi) as [HP Hlen].
  assert (Hlane : forall y, In y (row (scaled_sims fw) i) -> fin y).
  { intros y Hy. apply (In_nth _ _ f0) in Hy. destruct Hy as (u & Hu & <-).
    rewrite Hlen in Hu. destruct (Hget i u Hi Hu) as (_ & <- & _).
    apply Hrow. exact Hu. }
  split; [|split].
  - intros j Hj. destruct (Hget i j Hi Hj) as (-> & _ & _). rewrite HP.
    apply softmax_lane_unit; [exact Hlane | rewrite Hlen; exact Hj].
  - intros Hnk Hhuge. rewrite HP. rewrite <- Hlen in Hhuge |- *.
    apply softmax_lane_sum_float; [|exact Hlane | exact Hhuge].
    intros E. rewrite E in Hlen. simpl in Hlen. lia.
  - intros m j u -> Hj Hu Hmask.
    destruct (Hget i j Hi Hj) as (-> & Ej & Ej').
    destruct (Hget i u Hi Hu) as (_ & Eu & _).
    assert (Es : nth j (row (scaled_sims fw) i) f0 = neg_1e9).
    { rewrite <- Ej, Ej'. unfold ref_masked. rewrite Hmask. reflexivity. }
    rewrite HP, Eu, <- Es.
    apply softmax_lane_negligible;
      [exact Hlane | rewrite Hlen; exact Hj | rewrite Hlen; exact Hu].
Qed.

(** With one key position the single weight of a row with a finite score
    is 1. *)
Lemma Attention_forward_single_key (h : Attention F) (xq xk xv : Array F)
    (mask : option (Array bool)) (d n_q : nat) :
  valid_head h d ->
  shape xq = (n_q, d) -> shape xk = (1, d) -> shape xv = (1, d) ->
  valid_mask mask n_q 1 ->
  exists fw : Forward F,
    Attention_forward h xq xk xv mask = Ok fw /\
    forall i, i < n_q ->
      fin (get f0 (scaled_sims fw) i 0) ->
      get f0 (attention_percents fw) i 0 = of_int 1.
Proof.
  intros Hh Hq Hk Hv Hm.
  destruct (Attention_forward_rows h xq xk xv mask d n_q 1
              Hh Hq Hk Hv Hm) as (fw & Hfw & _ & _ & Hrows & Hget).
  exists fw. split; [exact Hfw|]. intros i Hi Hfin.
  destruct (Hrows i Hi) as [HP Hlen].
  destruct (Hget i 0 Hi (Nat.lt_0_succ 0)) as (-> & E & _).
  rewrite E in Hfin. rewrite HP.
  destruct (row (scaled_sims fw) i) as [|x [|y l]]; try discriminate Hlen.
  cbn [nth] in Hfin. rewrite (softmax_lane_single x Hfin). reflexivity.
Qed.
End FloatForward.

(** ** The claims on the attention weights *)

(** C2, as the code has it.  In floating-point arithmetic (any element
    type that obeys [FloatLaws]), on valid inputs the forward pass
    succeeds with a weight matrix of shape [(n_q, n_k)], and on every row
    [i] whose scaled scores are all finite: each weight is a finite
    number of [[0, 1]]; with at least one key position, and not so many
    that the sum overflows, the weights of the row sum to 1 up to
    rounding, between [(1 - eps) / (1 + eps) ^ n_k - n_k * eta] and
    [(1 + eps) / (1 - eps) ^ n_k + n_k * eta]; and under a mask the weight
    at a masked position [(i, j)] is below [1e-6] as soon as row [i] holds
    a score [s] with [-1e9 - s] at or below [small_bound], and is exactly
    0 when [-1e9 - s] is at or below [underflow_bound].  On a fully masked
    row no such score exists and the weights are uniform. *)
Theorem attention_weights_float :
  forall (F : Type) (SF : Scalar F) (FF : FloatFormat F),
    FloatLaws F ->
    forall (h : Attention F) (xq xk xv : Array F)
           (mask : option (Array bool)) (d n_q n_k : nat),
      valid_head h d ->
      shape xq = (n_q, d) -> shape xk = (n_k, d) -> shape xv = (n_k, d) ->
      valid_mask mask n_q n_k ->
      exists fw : Forward F,
        Attention_forward h xq xk xv mask = Ok fw /\
        shape (attention_percents fw) = (n_q, n_k) /\
        forall i, i < n_q ->
          (forall u, u < n_k -> fin (get f0 (scaled_sims fw) i u)) ->
          (forall j, j < n_k ->
             fin (get f0 (attention_percents fw) i j) /\
             fle f0 (get f0 (attention_percents fw) i j) /\
             fle (get f0 (attention_percents fw) i j) (of_int 1)) /\
          (1 <= n_k ->
           ((1 + eps) ^ n_k * INR n_k <= huge)%R ->
           ((1 - eps) / (1 + eps) ^ n_k - INR n_k * eta <=
              real_sum (map toR (row (attention_percents fw) i)) <=
            (1 + eps) / (1 - eps) ^ n_k + INR n_k * eta)%R) /\
          (forall m j u,
             mask = Some m -> j < n_k -> u < n_k ->
             get false m i j = true ->
             (fle (fsub neg_1e9 (get f0 (scaled_sims fw) i u)) small_bound ->
              (toR (get f0 (attention_percents fw) i j) < 1 / 1000000)%R) /\
             (fle (fsub neg_1e9 (get f0 (scaled_sims fw) i u))
                  underflow_bound ->
              get f0 (attention_percents fw) i j = f0)).
Proof.
  intros F SF FF FL h xq xk xv mask d n_q n_k.
  apply Attention_forward_float.
Qed.

Lemma attention_weights_float_witness :
  exists fw : Forward xreal,
    Attention_forward x_unit_head x_two_tokens x_two_tokens x_two_tokens
      (Some mask_row_2x2) = Ok fw /\
    shape (attention_percents fw) = (2, 2) /\
    (forall j, j < 2 ->
       fin (get f0 (attention_percents fw) 0 j) /\
       fle f0 (get f0 (attention_percents fw) 0 j) /\
       fle (get f0 (attention_percents fw) 0 j) (of_int 1)) /\
    ((1 - 0) / (1 + 0) ^ 2 - INR 2 * 0 <=
       real_sum (map toR (row (attention_percents fw) 0)) <=
     (1 + 0) / (1 - 0) ^ 2 + INR 2 * 0)%R /\
    get false mask_row_2x2 0 1 = true /\
    (toR (get f0 (attention_percents fw) 0 1) < 1 / 1000000)%R /\
    get f0 (attention_percents fw) 0 1 = f0.
Proof.
  destruct (attention_weights_float xreal X_Scalar X_Format X_Laws
              x_unit_head x_two_tokens x_two_tokens x_two_tokens
              (Some mask_row_2x2) 1 2 2
              (conj eq_refl (conj eq_refl (conj eq_refl
                 (conj eq_refl (conj eq_refl eq_refl)))))
              eq_refl eq_refl eq_refl eq_refl)
    as (fw & Hfw & Hshape & Hrow).
  destruct (Attention_forward_rows x_unit_head x_two_tokens x_two_tokens
              x_two_tokens (Some mask_row_2x2) 1 2 2)
    as (fw' & Hfw' & _ & _ & _ & Hget);
    [repeat split | reflexivity | reflexivity | reflexivity | reflexivity |].
  same_forward Hfw Hfw'.
  assert (H00 : get f0 (scaled_sims fw') 0 0 = Num 1).
  { destruct (Hget 0 0) as (_ & _ & ->); [lia | lia |].
    x_score. f_equal. lra. }
  assert (H01 : get f0 (scaled_sims fw') 0 1 = Num (-1000000000)).
  { destruct (Hget 0 1) as (_ & _ & ->); [lia | lia |]. reflexivity. }
  destruct (Hrow 0 (Nat.lt_0_succ 1)) as (Hunit & Hsum & Hmask).
  { intros u Hu. destruct u as [|[|u]]; [rewrite H00 | rewrite H01 | lia];
      x_ops; x_red; unfold big; lra. }
  destruct (Hmask mask_row_2x2 1 0 eq_refl
              (Nat.lt_succ_diag_r 1) (Nat.lt_0_succ 1) eq_refl)
    as [Hsmall Hzero].
  rewrite H00 in Hsmall, Hzero.
  exists fw'. split; [exact Hfw|]. split; [exact Hshape|].
  split; [exact Hunit|].
  split; [apply Hsum; [lia | x_ops; unfold big; simpl; lra]|].
  split; [reflexivity|].
  split; [apply Hsmall | apply Hzero]; x_eval; lra.
Defined.

(** C6, as the code has it.  In floating-point arithmetic, a masked
    self-attention call with the causal mask succeeds, and on every row
    [i] whose scaled scores are finite and whose diagonal score
    [S'[i,i]] lies far enough above the sentinel ([-1e9 - S'[i,i]] at or
    below the bound under which [exp] returns 0), the weight is exactly
    zero at every position [j > i]. *)
Theorem causal_mask_weights_zero :
  forall (F : Type) (SF : Scalar F) (FF : FloatFormat F),
    FloatLaws F ->
    forall (s : MaskedSelfAttention F) (x : Array F) (d n : nat),
      valid_head (as_Attention s) d ->
      shape x = (n, d) ->
      exists fw : Forward F,
        MaskedSelfAttention_forward s x (Some (causal_mask n)) = Ok fw /\
        forall i, i < n ->
          (forall u, u < n -> fin (get f0 (scaled_sims fw) i u)) ->
          fle (fsub neg_1e9 (get f0 (scaled_sims fw) i i)) underflow_bound ->
          forall j, i < j -> j < n ->
            get f0 (attention_percents fw) i j = f0.
Proof.
  intros F SF FF FL s x d n Hh Hx.
  rewrite MaskedSelfAttention_forward_as_Attention.
  destruct (Attention_forward_float (as_Attention s) x x x
              (Some (causal_mask n)) d n n Hh Hx Hx Hx eq_refl)
    as (fw & Hfw & _ & Hrow).
  exists fw. split; [exact Hfw|]. intros i Hi Hfin Hdiag j Hij Hj.
  destruct (Hrow i Hi Hfin) as (_ & _ & Hmask).
  destruct (Hmask (causal_mask n) j i eq_refl Hj Hi
              (causal_mask_above_diagonal n i j Hij Hj)) as [_ Hzero].
  apply Hzero. exact Hdiag.
Qed.

Lemma causal_mask_weights_zero_witness :
  exists fw : Forward xreal,
    MaskedSelfAttention_forward x_skew_head x_two_tokens
      (Some (causal_mask 2)) = Ok fw /\
    get f0 (attention_percents fw) 0 1 = f0.
Proof.
  destruct (causal_mask_weights_zero xreal X_Scalar X_Format X_Laws
              x_skew_head x_two_tokens 1 2
              (conj eq_refl (conj eq_refl (conj eq_refl
                 (conj eq_refl (conj eq_refl eq_refl)))))
              eq_refl)
    as (fw & Hfw & Hw).
  pose proof Hfw as Hfw0.
  rewrite MaskedSelfAttention_forward_as_Attention in Hfw0.
  destruct (Attention_forward_rows (as_Attention x_skew_head) x_two_tokens
              x_two_tokens x_two_tokens (Some (causal_mask 2)) 1 2 2)
    as (fw' & Hfw' & _ & _ & _ & Hget);
    [repeat split | reflexivity | reflexivity | reflexivity | reflexivity |].
  same_forward Hfw0 Hfw'.
  assert (H00 : get f0 (scaled_sims fw') 0 0 = Num (-1)).
  { destruct (Hget 0 0) as (_ & _ & ->); [lia | lia |].
    x_score. f_equal. lra. }
  assert (H01 : get f0 (scaled_sims fw') 0 1 = Num (-1000000000)).
  { destruct (Hget 0 1) as (_ & _ & ->); [lia | lia |]. reflexivity. }
  exists fw'. split; [exact Hfw|].
  apply (Hw 0 (Nat.lt_0_succ 1)); [| |lia | lia].
  - intros u Hu. destruct u as [|[|u]]; [rewrite H00 | rewrite H01 | lia];
      x_ops; x_red; unfold big; lra.
  - rewrite H00. x_eval. lra.
Defined.

(** ** Further properties of the weights in floating-point arithmetic *)

(** X13.  A single key.  With one key/value token, masked or not, the
    call succeeds and every attention weight whose scaled score is finite
    is exactly 1. *)
Theorem single_key_weight_is_one :
  forall (F : Type) (SF : Scalar F) (FF : FloatFormat F),
    FloatLaws F ->
    forall (h : Attention F) (xq xk xv : Array F)
           (mask : option (Array bool)) (d n_q : nat),
      valid_head h d ->
      shape xq = (n_q, d) -> shape xk = (1, d) -> shape xv = (1, d) ->
      valid_mask mask n_q 1 ->
      exists fw : Forward F,
        Attention_forward h xq xk xv mask = Ok fw /\
        forall i, i < n_q ->
          fin (get f0 (scaled_sims fw) i 0) ->
          get f0 (attention_percents fw) i 0 = of_int 1.
Proof.
  intros F SF FF FL h xq xk xv mask d n_q.
  apply Attention_forward_single_key.
Qed.

Lemma single_key_weight_is_one_witness :
  exists fw : Forward xreal,
    Attention_forward x_unit_head x_two_tokens x_one_token x_one_token
      None = Ok fw /\
    forall i, i < 2 -> get f0 (attention_percents fw) i 0 = of_int 1.
Proof.
  destruct (single_key_weight_is_one xreal X_Scalar X_Format X_Laws
              x_unit_head x_two_tokens x_one_token x_one_token None 1 2
              (conj eq_refl (conj eq_refl (conj eq_refl
                 (conj eq_refl (conj eq_refl eq_refl)))))
              eq_refl eq_refl eq_refl I)
    as (fw & Hfw & Hw).
  destruct (Attention_forward_rows x_unit_head x_two_tokens x_one_token
              x_one_token None 1 2 1)
    as (fw' & Hfw' & _ & _ & _ & Hget);
    [repeat split | reflexivity | reflexivity | reflexivity | exact I |].
  same_forward Hfw Hfw'.
  exists fw'. split; [exact Hfw|]. intros i Hi. apply (Hw i Hi).
  destruct (Hget i 0 Hi (Nat.lt_0_succ 0)) as (_ & _ & ->).
  destruct i as [|[|i]]; [| |lia]; x_score; unfold big; lra.
Defined.

(** ** Heads whose query and key weights coincide *)

Section TiedWeights.
Context {F : Type} {SF : Scalar F} {FF : FloatFormat F}.
Context {FL : FloatLaws F} {PL : ProductLaws F}.

(** A running sum that is a number has only numbers as terms. *)
Lemma fold_fadd_num (l : list F) :
  forall acc : F,
    fle (fold_left fadd l acc) (fold_left fadd l acc) ->
    fle acc acc /\ forall y, In y l -> fle y y.
Proof.
  induction l as [|y l IH]; intros acc H; cbn [fold_left] in H.
  - split; [exact H | intros y []].
  - destruct (IH _ H) as [Hacc Hl].
    destruct (fadd_num acc y Hacc) as [Ha Hy].
    split; [exact Ha|]. intros z [<-|Hz]; [exact Hy | apply Hl; exact Hz].
Qed.

(** With [W_q = W_k] a finite scaled similarity of a token with itself is
    not negative. *)
Lemma self_score_nonneg (W : Array F) (d : nat) (x : Array F) (i : nat) :
  1 <= d ->
  fin (ref_scaled W W d x x i i) ->
  fle f0 (ref_scaled W W d x x i i).
Proof.
  intros Hd Hfin. unfold ref_scaled in *.
  pose proof (fle_refl _ Hfin) as Hnum.
  apply fdiv_sqrt_nonneg; [lia | | exact Hnum].
  apply fdiv_num in Hnum. unfold ref_S, big_sum, fsum in *.
  destruct (fold_fadd_num _ _ Hnum) as [_ Hterms].
  destruct (fold_fadd_upper
              (map (fun c => fmul (ref_Q W d x i c) (ref_K W d x i c))
                 (seq 0 d)) f0) as [Hacc _].
  - apply fle_refl. exact fin_zero.
  - intros y Hy. pose proof (Hterms y Hy) as Hy'.
    apply in_map_iff in Hy. destruct Hy as (c & <- & _).
    apply fmul_self_nonneg. exact Hy'.
  - apply Hacc. apply fle_refl. exact fin_zero.
Qed.

(** Such a head zeroes the future under the causal mask, on every row of
    finite scores. *)
Lemma tied_weights_causal_zero (h : Attention F) (x : Array F) (d n : nat) :
  1 <= d ->
  valid_head h d ->
  W_q h = W_k h ->
  shape x = (n, d) ->
  exists fw : Forward F,
    Attention_forward h x x x (Some (causal_mask n)) = Ok fw /\
    forall i, i < n ->
      (forall u, u < n -> fin (get f0 (scaled_sims fw) i u)) ->
      forall j, i < j -> j < n ->
        get f0 (attention_percents fw) i j = f0.
Proof.
  intros Hd Hh Htied Hx.
  destruct (Attention_forward_float h x x x (Some (causal_mask n)) d n n
              Hh Hx Hx Hx eq_refl) as (fw & Hfw & _ & Hrow).
  destruct (Attention_forward_rows h x x x (Some (causal_mask n)) d n n
              Hh Hx Hx Hx eq_refl) as (fw' & Hfw' & _ & _ & _ & Hget).
  same_forward Hfw Hfw'.
  exists fw'. split; [exact Hfw|]. intros i Hi Hfin j Hij Hj.
  destruct (Hrow i Hi Hfin) as (_ & _ & Hmask).
  destruct (Hmask (causal_mask n) j i eq_refl Hj Hi
              (causal_mask_above_diagonal n i j Hij Hj)) as [_ Hzero].
  apply Hzero.
  assert (Hsent : fin neg_1e9).
  { destruct (Hget i j Hi Hj) as (_ & _ & E).
    unfold ref_masked in E.
    rewrite (causal_mask_above_diagonal n i j Hij Hj) in E.
    rewrite <- E. apply Hfin. exact Hj. }
  assert (Hdiag : get f0 (scaled_sims fw') i i =
                  ref_scaled (W_q h) (W_q h) d x x i i).
  { destruct (Hget i i Hi Hi) as (_ & _ & ->).
    unfold ref_masked, causal_mask. rewrite get_tabulate by assumption.
    rewrite Nat.ltb_irrefl, <- Htied. reflexivity. }
  pose proof (Hfin i Hi) as Hfd. rewrite Hdiag in Hfd |- *.
  apply fle_trans with (fsub neg_1e9 f0); [|exact sentinel_underflows].
  apply fsub_antitone; [exact Hsent | exact fin_zero | exact Hfd|].
  apply self_score_nonneg; assumption.
Qed.
End TiedWeights.

(** X15.  A masked self-attention module as its constructor leaves it
    ([W_q = W_k], width [d >= 1], axes 0 and 1) zeroes the future under
    the causal mask: the call succeeds and, on every row [i] whose scaled
    scores are finite, the weight at every position [j > i] is exactly
    0, whatever the tokens. *)
Theorem constructed_module_causal_zero :
  forall (key : Type) (fold_in : key -> nat -> key)
         (F : Type) (SF : Scalar F) (FF : FloatFormat F)
         (sample : key -> nat -> nat -> nat -> nat -> F),
    FloatLaws F -> ProductLaws F ->
    forall (d : nat) (rngs rngs' : Rngs key) (s : MaskedSelfAttention F)
           (x : Array F) (n : nat),
      1 <= d ->
      MaskedSelfAttention_init fold_in sample (Z.of_nat d) 0 1 rngs =
        Ok (s, rngs') ->
      shape x = (n, d) ->
      exists fw : Forward F,
        MaskedSelfAttention_forward s x (Some (causal_mask n)) = Ok fw /\
        forall i, i < n ->
          (forall u, u < n -> fin (get f0 (scaled_sims fw) i u)) ->
          forall j, i < j -> j < n ->
            get f0 (attention_percents fw) i j = f0.
Proof.
  intros key fold_in F SF FF sample FL PL d rngs rngs' s x n Hd Hinit Hx.
  rewrite MaskedSelfAttention_init_eq in Hinit.
  destruct (Z.of_nat d <? 0)%Z; [discriminate|].
  cbv zeta in Hinit. injection Hinit as <- <-.
  rewrite MaskedSelfAttention_forward_as_Attention.
  apply (tied_weights_causal_zero _ x d n).
  - exact Hd.
  - repeat split; apply drawn_weights_shape.
  - reflexivity.
  - exact Hx.
Qed.

Lemma constructed_module_causal_zero_witness :
  exists fw : Forward xreal,
    MaskedSelfAttention_forward
      (mkMaskedSelfAttention
         (drawn_weights demo_fold_in x_sample 1 demo_rngs)
         (drawn_weights demo_fold_in x_sample 1 demo_rngs)
         (drawn_weights demo_fold_in x_sample 1 demo_rngs) 0 1 1)
      x_two_tokens (Some (causal_mask 2)) = Ok fw /\
    forall i j, i < j -> j < 2 ->
      get f0 (attention_percents fw) i j = f0.
Proof.
  destruct (constructed_module_causal_zero nat demo_fold_in xreal X_Scalar
              X_Format x_sample X_Laws X_ProductLaws
              1 demo_rngs (advance demo_rngs) _ x_two_tokens 2
              (le_n 1) eq_refl eq_refl)
    as (fw & Hfw & Hw).
  pose proof Hfw as Hfw0.
  rewrite MaskedSelfAttention_forward_as_Attention in Hfw0.
  destruct (Attention_forward_rows
              (as_Attention
                 (mkMaskedSelfAttention
                    (drawn_weights demo_fold_in x_sample 1 demo_rngs)
                    (drawn_weights demo_fold_in x_sample 1 demo_rngs)
                    (drawn_weights demo_fold_in x_sample 1 demo_rngs)
                    0 1 1))
              x_two_tokens x_two_tokens x_two_tokens
              (Some (causal_mask 2)) 1 2 2)
    as (fw' & Hfw' & _ & _ & _ & Hget);
    [repeat split | reflexivity | reflexivity | reflexivity | reflexivity |].
  assert (E : Ok fw = Ok fw') by (rewrite <- Hfw0; exact Hfw').
  injection E as ->.
  exists fw'. split; [exact Hfw|]. intros i j Hij Hj.
  assert (i = 0) by lia. assert (j = 1) by lia. subst i j.
  apply (Hw 0 (Nat.lt_0_succ 1)); [|lia | lia].
  intros u Hu. destruct (Hget 0 u (Nat.lt_0_succ 1) Hu) as (_ & _ & ->).
  destruct u as [|[|u]]; [| |lia].
  - change (drawn_weights demo_fold_in x_sample 1 demo_rngs)
      with (mkArray 1 1 [[Num 42]]).
    x_score; unfold big; lra.
  - x_score; unfold big; lra.
Defined.

Section FloatColumns.
Context {F : Type} {SF : Scalar F}.

(** With the axis attributes exchanged, column [j] of the weights is the
    softmax of column [j] of the scaled scores. *)
Lemma Attention_forward_columns (h : Attention F) (xq xk xv : Array F)
    (mask : option (Array bool)) (d n_q n_k : nat) :
  row_dim h = 1%Z -> col_dim h = 0%Z ->
  valid_head (with_axes h 0 1) d ->
  shape xq = (n_q, d) -> shape xk = (n_k, d) -> shape xv = (n_k, d) ->
  valid_mask mask n_q n_k ->
  exists fw : Forward F,
    Attention_forward h xq xk xv mask = Ok fw /\
    shape (attention_percents fw) = (n_q, n_k) /\
    shape (scaled_sims fw) = (n_q, n_k) /\
    forall j, j < n_k ->
      column f0 (attention_percents fw) j =
        softmax_lane (column f0 (scaled_sims fw) j) /\
      length (column f0 (scaled_sims fw) j) = n_q.
Proof.
  intros Hr Hc Hh Hq Hk Hv Hm.
  destruct (Attention_forward_swapped h xq xk xv mask d n_q n_k
              Hr Hc Hh Hq Hk Hv Hm) as (fw & Hfw & HS & HP).
  exists fw. split; [exact Hfw|]. rewrite HP, HS.
  split; [reflexivity|]. split; [reflexivity|]. intros j Hj.
  unfold column. cbn [nrows tabulate].
  set (lane := map (fun i' => ref_masked (W_q h) (W_k h) d xq xk mask i' j)
                 (seq 0 n_q)).
  assert (El : map (fun i =>
                      get f0 (tabulate n_q n_k
                                (ref_masked (W_q h) (W_k h) d xq xk mask))
                        i j) (seq 0 n_q) = lane).
  { subst lane. apply map_ext_in. intros i Hi. apply in_seq in Hi.
    rewrite get_tabulate by lia. reflexivity. }
  fold (tabulate n_q n_k (ref_masked (W_q h) (W_k h) d xq xk mask)).
  rewrite El. split.
  - transitivity (map (fun i => nth i (softmax_lane lane) f0)
                    (seq 0 (length (softmax_lane lane))));
      [|symmetry; apply list_as_map_nth].
    rewrite softmax_lane_length. subst lane.
    rewrite length_map, length_seq.
    apply map_ext_in. intros i Hi. apply in_seq in Hi.
    fold (tabulate n_q n_k
            (fun i j =>
               nth i (softmax_lane
                        (map (fun i' =>
                                ref_masked (W_q h) (W_k h) d xq xk mask i' j)
                             (seq 0 n_q))) f0)).
    rewrite get_tabulate by lia. reflexivity.
  - subst lane. rewrite length_map, length_seq. reflexivity.
Qed.
End FloatColumns.

(** X16.  The axis attributes exchanged.  On a head with [row_dim = 1]
    and [col_dim = 0] the call succeeds on the same shapes, and the
    softmax runs down the columns: column [j] of the weights is the
    softmax of column [j] of the scaled scores.  In floating-point
    arithmetic, when the scores of column [j] are finite, its weights are
    finite numbers of [[0, 1]] that sum to 1 up to rounding. *)
Theorem swapped_axes_softmax_columns :
  forall (F : Type) (SF : Scalar F) (FF : FloatFormat F),
    FloatLaws F ->
    forall (h : Attention F) (xq xk xv : Array F)
           (mask : option (Array bool)) (d n_q n_k : nat),
      row_dim h = 1%Z -> col_dim h = 0%Z ->
      valid_head (with_axes h 0 1) d ->
      shape xq = (n_q, d) -> shape xk = (n_k, d) -> shape xv = (n_k, d) ->
      valid_mask mask n_q n_k ->
      exists fw : Forward F,
        Attention_forward h xq xk xv mask = Ok fw /\
        shape (attention_percents fw) = (n_q, n_k) /\
        forall j, j < n_k ->
          column f0 (attention_percents fw) j =
            softmax_lane (column f0 (scaled_sims fw) j) /\
          ((forall i, i < n_q -> fin (get f0 (scaled_sims fw) i j)) ->
           (forall i, i < n_q ->
              fin (get f0 (attention_percents fw) i j) /\
              fle f0 (get f0 (attention_percents fw) i j) /\
              fle (get f0 (attention_percents fw) i j) (of_int 1)) /\
           (1 <= n_q ->
            ((1 + eps) ^ n_q * INR n_q <= huge)%R ->
            ((1 - eps) / (1 + eps) ^ n_q - INR n_q * eta <=
               real_sum (map toR (column f0 (attention_percents fw) j)) <=
             (1 + eps) / (1 - eps) ^ n_q + INR n_q * eta)%R)).
Proof.
  intros F SF FF FL h xq xk xv mask d n_q n_k Hr Hc Hh Hq Hk Hv Hm.
  destruct (Attention_forward_columns h xq xk xv mask d n_q n_k
              Hr Hc Hh Hq Hk Hv Hm) as (fw & Hfw & HsP & HsS & Hcols).
  exists fw. split; [exact Hfw|]. split; [exact HsP|]. intros j Hj.
  destruct (Hcols j Hj) as [HP Hlen]. split; [exact HP|]. intros Hfin.
  assert (HnP : nrows (attention_percents fw) = n_q)
    by (unfold shape in HsP; congruence).
  assert (HnS : nrows (scaled_sims fw) = n_q)
    by (unfold shape in HsS; congruence).
  assert (Hlane : forall y, In y (column f0 (scaled_sims fw) j) -> fin y).
  { intros y Hy. unfold column in Hy. apply in_map_iff in Hy.
    destruct Hy as (i & <- & Hi). apply in_seq in Hi.
    apply Hfin. lia. }
  split.
  - intros i Hi.
    assert (E : get f0 (attention_percents fw) i j =
                nth i (column f0 (attention_percents fw) j) f0).
    { unfold column. rewrite HnP.
      rewrite (nth_indep _ f0 (get f0 (attention_percents fw) 0 j))
        by (rewrite length_map, length_seq; exact Hi).
      rewrite (map_nth (fun i => get f0 (attention_percents fw) i j)).
      rewrite seq_nth by exact Hi. reflexivity. }
    rewrite E, HP.
    apply softmax_lane_unit; [exact Hlane | rewrite Hlen; exact Hi].
  - intros Hn Hhuge. rewrite HP. rewrite <- Hlen in Hhuge |- *.
    apply softmax_lane_sum_float; [|exact Hlane | exact Hhuge].
    intros E. rewrite E in Hlen. simpl in Hlen. lia.
Qed.

Lemma swapped_axes_softmax_columns_witness :
  exists fw : Forward xreal,
    Attention_forward (with_axes x_unit_head 1 0) x_two_tokens x_two_tokens
      x_two_tokens None = Ok fw /\
    shape (attention_percents fw) = (2, 2) /\
    forall j, j < 2 ->
      column f0 (attention_percents fw) j =
        softmax_lane (column f0 (scaled_sims fw) j) /\
      (forall i, i < 2 ->
         fin (get f0 (attention_percents fw) i j) /\
         fle f0 (get f0 (attention_percents fw) i j) /\
         fle (get f0 (attention_percents fw) i j) (of_int 1)) /\
      ((1 - 0) / (1 + 0) ^ 2 - INR 2 * 0 <=
         real_sum (map toR (column f0 (attention_percents fw) j)) <=
       (1 + 0) / (1 - 0) ^ 2 + INR 2 * 0)%R.
Proof.
  destruct (swapped_axes_softmax_columns xreal X_Scalar X_Format X_Laws
              (with_axes x_unit_head 1 0) x_two_tokens x_two_tokens
              x_two_tokens None 1 2 2 eq_refl eq_refl
              (conj eq_refl (conj eq_refl (conj eq_refl
                 (conj eq_refl (conj eq_refl eq_refl)))))
              eq_refl eq_refl eq_refl I)
    as (fw & Hfw & Hshape & Hcols).
  destruct (Attention_forward_swapped (with_axes x_unit_head 1 0)
              x_two_tokens x_two_tokens x_two_tokens None 1 2 2
              eq_refl eq_refl
              (conj eq_refl (conj eq_refl (conj eq_refl
                 (conj eq_refl (conj eq_refl eq_refl)))))
              eq_refl eq_refl eq_refl I)
    as (fw' & Hfw' & HS & _).
  same_forward Hfw Hfw'.
  exists fw'. split; [exact Hfw|]. split; [exact Hshape|]. intros j Hj.
  destruct (Hcols j Hj) as [HP Hfloat]. split; [exact HP|].
  destruct Hfloat as [Hunit Hsum].
  { intros i Hi. rewrite HS. rewrite get_tabulate by assumption.
    destruct i as [|[|i]]; [| |lia]; destruct j as [|[|j]]; try lia;
      x_score; unfold big; lra. }
  split; [exact Hunit|].
  apply Hsum; [lia | x_ops; unfold big; simpl; lra].
Defined.

(** X19.  [SelfAttention] in floating-point arithmetic.  On a valid
    module and a token matrix of shape [(n, d)] the call returns the
    [(n, d)] product of the weights and the projected values, and on
    every row whose scaled scores are finite the weights are finite
    numbers of [[0, 1]] that sum to 1 up to rounding. *)
Theorem self_attention_weights_float :
  forall (F : Type) (SF : Scalar F) (FF : FloatFormat F),
    FloatLaws F ->
    forall (s : SelfAttention F) (x : Array F) (d n : nat),
      valid_head (sa_as_Attention s) d ->
      shape x = (n, d) ->
      exists fw : Forward F,
        SelfAttention_forward s x = Ok fw /\
        SelfAttention_call s x = Ok (attention_scores fw) /\
        shape (attention_scores fw) = (n, d) /\
        forall i, i < n ->
          (forall u, u < n -> fin (get f0 (scaled_sims fw) i u)) ->
          (forall j, j < n ->
             fin (get f0 (attention_percents fw) i j) /\
             fle f0 (get f0 (attention_percents fw) i j) /\
             fle (get f0 (attention_percents fw) i j) (of_int 1)) /\
          (1 <= n ->
           ((1 + eps) ^ n * INR n <= huge)%R ->
           ((1 - eps) / (1 + eps) ^ n - INR n * eta <=
              real_sum (map toR (row (attention_percents fw) i)) <=
            (1 + eps) / (1 - eps) ^ n + INR n * eta)%R).
Proof.
  intros F SF FF FL s x d n Hh Hx.
  unfold SelfAttention_call.
  rewrite SelfAttention_forward_as_Attention.
  destruct (Attention_forward_float (sa_as_Attention s) x x x None d n n
              Hh Hx Hx Hx I) as (fw & Hfw & _ & Hrow).
  pose proof (Attention_forward_ok (sa_as_Attention s) x x x None d n n
                Hh Hx Hx Hx I) as Hok.
  rewrite Hfw. exists fw.
  split; [reflexivity|]. split; [reflexivity|]. split.
  - rewrite Hfw in Hok. injection Hok as ->. reflexivity.
  - intros i Hi Hfin. destruct (Hrow i Hi Hfin) as (Hunit & Hsum & _).
    split; assumption.
Qed.

Lemma self_attention_weights_float_witness :
  exists fw : Forward xreal,
    SelfAttention_forward x_self_head x_two_tokens = Ok fw /\
    SelfAttention_call x_self_head x_two_tokens =
      Ok (attention_scores fw) /\
    shape (attention_scores fw) = (2, 1) /\
    forall i, i < 2 ->
      (forall j, j < 2 ->
         fin (get f0 (attention_percents fw) i j) /\
         fle f0 (get f0 (attention_percents fw) i j) /\
         fle (get f0 (attention_percents fw) i j) (of_int 1)) /\
      ((1 - 0) / (1 + 0) ^ 2 - INR 2 * 0 <=
         real_sum (map toR (row (attention_percents fw) i)) <=
       (1 + 0) / (1 - 0) ^ 2 + INR 2 * 0)%R.
Proof.
  destruct (self_attention_weights_float xreal X_Scalar X_Format X_Laws
              x_self_head x_two_tokens 1 2
              (conj eq_refl (conj eq_refl (conj eq_refl
                 (conj eq_refl (conj eq_refl eq_refl)))))
              eq_refl)
    as (fw & Hfw & Hcall & Hshape & Hrow).
  pose proof Hfw as Hfw0.
  rewrite SelfAttention_forward_as_Attention in Hfw0.
  destruct (Attention_forward_rows (sa_as_Attention x_self_head)
              x_two_tokens x_two_tokens x_two_tokens None 1 2 2)
    as (fw' & Hfw' & _ & _ & _ & Hget);
    [repeat split | reflexivity | reflexivity | reflexivity | exact I |].
  same_forward Hfw0 Hfw'.
  exists fw'. split; [exact Hfw|]. split; [exact Hcall|].
  split; [exact Hshape|]. intros i Hi.
  destruct (Hrow i Hi) as [Hunit Hsum].
  { intros u Hu. destruct (Hget i u Hi Hu) as (_ & _ & ->).
    destruct i as [|[|i]]; [| |lia]; destruct u as [|[|u]]; try lia;
      x_score; unfold big; lra. }
  split; [exact Hunit|].
  apply Hsum; [lia | x_ops; unfold big; simpl; lra].
Defined.

(** ** Width zero *)

(** X20.  Width zero.  With [d_model = 0], weights of shape [(0, 0)] and
    inputs without columns, the call succeeds and returns an array
    without columns; every similarity is the empty sum, so every scaled
    score that is not masked is the quotient [0 / sqrt 0], which is NaN in
    IEEE arithmetic. *)
Theorem zero_width_scores :
  forall (F : Type) (SF : Scalar F) (h : Attention F) (xq xk xv : Array F)
         (mask : option (Array bool)) (n_q n_k : nat),
    valid_head h 0 ->
    shape xq = (n_q, 0) -> shape xk = (n_k, 0) -> shape xv = (n_k, 0) ->
    valid_mask mask n_q n_k ->
    exists fw : Forward F,
      Attention_forward h xq xk xv mask = Ok fw /\
      Attention_call h xq xk xv mask = Ok (attention_scores fw) /\
      shape (attention_scores fw) = (n_q, 0) /\
      forall i j, i < n_q -> j < n_k ->
        get f0 (sims fw) i j = f0 /\
        get f0 (scaled_sims fw) i j =
          match mask with
          | Some m => if get false m i j then neg_1e9
                      else fdiv f0 (fsqrt (of_int 0))
          | None => fdiv f0 (fsqrt (of_int 0))
          end.
Proof.
  intros F SF h xq xk xv mask n_q n_k Hh Hq Hk Hv Hm.
  pose proof (Attention_forward_ok h xq xk xv mask 0 n_q n_k
                Hh Hq Hk Hv Hm) as Hok.
  unfold Attention_call. rewrite Hok. cbn [bind].
  eexists. split; [reflexivity|]. split; [reflexivity|].
  cbn [attention_scores sims scaled_sims]. split; [reflexivity|].
  intros i j Hi Hj. rewrite !get_tabulate by assumption.
  split; [reflexivity|]. unfold ref_masked, ref_scaled.
  destruct mask as [m|]; reflexivity.
Qed.

Lemma zero_width_scores_witness :
  exists fw : Forward xreal,
    Attention_forward
      (mkAttention (mkArray 0 0 []) (mkArray 0 0 []) (mkArray 0 0 []) 0 1 0)
      (mkArray 1 0 [[]]) (mkArray 1 0 [[]]) (mkArray 1 0 [[]]) None =
      Ok fw /\
    shape (attention_scores fw) = (1, 0) /\
    get f0 (sims fw) 0 0 = Num 0 /\
    get f0 (scaled_sims fw) 0 0 = NaN /\
    ~ fin (get f0 (scaled_sims fw) 0 0).
Proof.
  destruct (zero_width_scores xreal X_Scalar
              (mkAttention (mkArray 0 0 []) (mkArray 0 0 [])
                 (mkArray 0 0 []) 0 1 0)
              (mkArray 1 0 [[]]) (mkArray 1 0 [[]]) (mkArray 1 0 [[]])
              None 1 1
              (conj eq_refl (conj eq_refl (conj eq_refl
                 (conj eq_refl (conj eq_refl eq_refl)))))
              eq_refl eq_refl eq_refl I)
    as (fw & Hfw & _ & Hshape & Hs).
  destruct (Hs 0 0 (Nat.lt_0_succ 0) (Nat.lt_0_succ 0)) as [H0 H1].
  assert (E : get f0 (scaled_sims fw) 0 0 = NaN).
  { rewrite H1. x_eval.
    - reflexivity.
    - exfalso. rewrite sqrt_0 in *. lra. }
  exists fw. split; [exact Hfw|]. split; [exact Hshape|].
  split; [exact H0|]. split; [exact E|]. rewrite E. intros [].
Defined.
